(** * File scanner and record transforms: a shallow embedding

    The development follows [Core/scanner.py] (class [FileScanner] and the
    record [FileMeta]) and [utils.py] (the record transforms).

    Conventions of the embedding:
    - a Python [str] is a [string]; a character is a code point below 256
      (Latin-1), which is what [ascii] holds;
    - a Python [int] is a [Z];
    - a [pathlib.Path] that has been resolved is the list of its components
      below the filesystem root, the root itself being the empty list;
    - a call that may raise returns an [outcome]: a [result] when only
      an OS-level error can occur, a [fallible] when any exception can; a
      generator is the list of what it yields together with the
      exception that ended it, if any;
    - the filesystem is a tree whose nodes say what each OS call answers;
    - the library calls whose answer depends on the platform
      ([datetime.fromtimestamp], the lenient decoder, resolving a path)
      are parameters. *)

From Stdlib Require Import ZArith List String Ascii Bool Lia Sorted Permutation.
From Stdlib.Strings Require Import Byte.
From Stdlib Require Import DecimalString.
From Equations.Prop Require Import Equations.
From stdpp Require Import base option list strings gmap sets.
Import ListNotations.

Local Open Scope string_scope.
Local Open Scope Z_scope.

(* ===================================================================== *)
(** ** Python string primitives used by the sources *)
(* ===================================================================== *)

Module Py.

(** Code point of a character, and back. *)
Definition ord (c : ascii) : Z := Z.of_N (N_of_ascii c).
Definition chr (z : Z) : ascii := ascii_of_N (Z.to_N z).

(** Characters of the Latin-1 range that [str.lower] changes:
    A-Z and the accented capitals U+00C0-U+00DE without U+00D7. *)
Definition is_upper_char (c : ascii) : bool :=
  let n := ord c in
  ((65 <=? n) && (n <=? 90))
  || ((192 <=? n) && (n <=? 222) && negb (n =? 215)).

Definition lower_char (c : ascii) : ascii :=
  if is_upper_char c then chr (ord c + 32) else c.

(** [s.lower()] *)
Fixpoint lower (s : string) : string :=
  match s with
  | EmptyString => EmptyString
  | String c s' => String (lower_char c) (lower s')
  end.

(** [s.startswith(prefix)] *)
Fixpoint startswith (s pre : string) : bool :=
  match pre, s with
  | EmptyString, _ => true
  | String a pre', String b s' => Ascii.eqb a b && startswith s' pre'
  | String _ _, EmptyString => false
  end.

(** [s.lstrip(c)] for a one-character argument. *)
Fixpoint lstrip (c : ascii) (s : string) : string :=
  match s with
  | String a s' => if Ascii.eqb a c then lstrip c s' else s
  | EmptyString => EmptyString
  end.

(** [s.rfind(c)] for a one-character argument: the highest index at
    which [c] occurs, [-1] when it does not occur. *)
Fixpoint rfind_from (c : ascii) (s : string) (i last : Z) : Z :=
  match s with
  | EmptyString => last
  | String a s' => rfind_from c s' (i + 1) (if Ascii.eqb a c then i else last)
  end.

Definition rfind (c : ascii) (s : string) : Z := rfind_from c s 0 (-1).

(** [len(s)] *)
Definition len (s : string) : Z := Z.of_nat (String.length s).

(** [s[i:]] for [0 <= i]. *)
Fixpoint drop (n : nat) (s : string) : string :=
  match n, s with
  | O, _ => s
  | S n', String _ s' => drop n' s'
  | S _, EmptyString => EmptyString
  end.

Definition slice_from (i : Z) (s : string) : string := drop (Z.to_nat i) s.

(** [s[:n]], also what [f.read(n)] returns from a character stream. *)
Fixpoint take (n : nat) (s : string) : string :=
  match n, s with
  | S n', String c s' => String c (take n' s')
  | _, _ => EmptyString
  end.

(** Truth value of a string: [bool(s)]. *)
Definition truthy (s : string) : bool :=
  match s with EmptyString => false | _ => true end.

(** [c.isspace()] for code points below 256: TAB, LF, VT, FF, CR,
    the separators U+001C-U+001F, SPACE, NEL and NO-BREAK SPACE. *)
Definition isspace (c : ascii) : bool :=
  let n := ord c in
  ((9 <=? n) && (n <=? 13)) || ((28 <=? n) && (n <=? 32))
  || (n =? 133) || (n =? 160).

(** [s.split()]: the maximal runs of non-whitespace characters.
    [cur] is the run being read. *)
Fixpoint split_from (cur : string) (s : string) : list string :=
  match s with
  | EmptyString => if truthy cur then [cur] else []
  | String c s' =>
      if isspace c
      then (if truthy cur then cur :: split_from EmptyString s'
            else split_from EmptyString s')
      else split_from (String.append cur (String c EmptyString)) s'
  end.

Definition split (s : string) : list string := split_from EmptyString s.

(** [sep.join(words)] *)
Definition join (sep : string) (words : list string) : string :=
  String.concat sep words.

(** [x in chunk] for a byte string. *)
Definition bytes_contains (b : byte) (chunk : list byte) : bool :=
  existsb (Byte.eqb b) chunk.

(** [str(n)] for an [int]. *)
Definition str_int (n : Z) : string := NilZero.string_of_int (Z.to_int n).

(** [n / d] rounded to the nearest integer, ties to the even one
    ([0 < d]). *)
Definition round_half_even (n d : Z) : Z :=
  let q := n / d in
  let r := n mod d in
  if 2 * r <? d then q
  else if d <? 2 * r then q + 1
  else if Z.even q then q else q + 1.

(** [s.zfill(width)] for a string of digits. *)
Definition zfill (width : nat) (s : string) : string :=
  String.append
    (string_of_list_ascii (repeat "0"%char (width - String.length s))) s.

(** [f"{num/den:.{digits}f}"] where the quotient is exact in binary
    floating point, as it is for [den] a power of two and
    [|num| < 2^53]: the exact value is rounded to [digits] decimals,
    ties to even, and a negative [num] keeps its sign. *)
Definition format_fixed (digits : nat) (num den : Z) : string :=
  let scale := 10 ^ Z.of_nat digits in
  let q := round_half_even (Z.abs num * scale) den in
  String.append (if num <? 0 then "-" else "")
    (String.append (str_int (q / scale))
       (String.append "." (zfill digits (str_int (q mod scale))))).

End Py.

(* ===================================================================== *)
(** ** Exceptions, fallible calls and generators *)
(* ===================================================================== *)

Module Exn.

(** The OS-level exceptions: what a failing [stat], [open], [read],
    [scandir] or entry test raises is an [OSError], here with the three
    subclasses the scanner can meet by name.  [OSError] is the base
    class of the other three. *)
Inductive exn : Set :=
| PermissionError
| FileNotFoundError
| NotADirectoryError
| OSError.

Definition exn_eqb (a b : exn) : bool :=
  match a, b with
  | PermissionError, PermissionError
  | FileNotFoundError, FileNotFoundError
  | NotADirectoryError, NotADirectoryError
  | OSError, OSError => true
  | _, _ => false
  end.

(** [isinstance(e, cls)] *)
Definition isinstance (e cls : exn) : bool :=
  match cls with
  | OSError => true
  | _ => exn_eqb e cls
  end.

(** Does [except (c1, ..., cn)] handle the OS-level [e]? *)
Definition handles (classes : list exn) (e : exn) : bool :=
  existsb (isinstance e) classes.

(** Every exception the program can meet: an OS-level one, or one of
    the built-in classes outside the [OSError] hierarchy that its
    library calls raise.  [datetime.fromtimestamp] raises [ValueError]
    or [OverflowError] for a timestamp outside what a [datetime] holds;
    [Path.expanduser] and [Path.resolve] raise [RuntimeError]. *)
Inductive exception : Set :=
| OS (e : exn)
| ValueError
| OverflowError
| RuntimeError.

(** Does [except (c1, ..., cn)] handle [e]?  The clauses of the program
    name OS-level classes only, which the other three are not
    instances of. *)
Definition catches (classes : list exn) (e : exception) : bool :=
  match e with
  | OS e' => handles classes e'
  | _ => false
  end.

(** A call: it returns a value or raises an exception of [E]. *)
Inductive outcome (E A : Type) : Type :=
| Ok (a : A)
| Raise (e : E).
Arguments Ok {E A} a.
Arguments Raise {E A} e.

(** A call that can only fail at the OS level, and one that can raise
    anything. *)
Abbreviation result := (outcome exn).
Abbreviation fallible := (outcome exception).

Definition bind {E A B} (r : outcome E A) (k : A -> outcome E B)
  : outcome E B :=
  match r with
  | Ok a => k a
  | Raise e => Raise e
  end.

(** An OS-level call made from code that can raise anything. *)
Definition os_call {A} (r : result A) : fallible A :=
  match r with
  | Ok a => Ok a
  | Raise e => Raise (OS e)
  end.

(** [try: body  except classes: handler] around an OS-level call. *)
Definition try_except {A} (body : result A) (classes : list exn)
           (handler : result A) : result A :=
  match body with
  | Ok a => Ok a
  | Raise e => if handles classes e then handler else Raise e
  end.

(** A generator run to its end: the values it yielded, in order, and the
    exception that ended it ([None] when it returned normally). *)
Record generator (E A : Type) : Type :=
  Gen { yielded : list A; raised : option E }.
Arguments Gen {E A} yielded raised.
Arguments yielded {E A} g.
Arguments raised {E A} g.

(** A generator whose body can only fail at the OS level. *)
Abbreviation gen := (generator exn).

Definition g_return {E A} : generator E A := Gen [] None.
Definition g_yield {E A} (a : A) : generator E A := Gen [a] None.
Definition g_raise {E A} (e : E) : generator E A := Gen [] (Some e).

(** Sequencing of two pieces of a generator body: the second runs only
    when the first did not raise. *)
Definition g_seq {E A} (g1 g2 : generator E A) : generator E A :=
  match raised g1 with
  | Some e => g1
  | None => Gen (yielded g1 ++ yielded g2)%list (raised g2)
  end.

(** A call inside a generator body. *)
Definition g_call {E A B} (r : outcome E A) (k : A -> generator E B)
  : generator E B :=
  match r with
  | Ok a => k a
  | Raise e => g_raise e
  end.

(** [try: body  except classes: handler] inside a generator body whose
    calls are OS-level: what the body yielded before it raised stays
    yielded. *)
Definition g_try {A} (body : gen A) (classes : list exn) (handler : gen A)
  : gen A :=
  match raised body with
  | None => body
  | Some e =>
      if handles classes e
      then Gen (yielded body ++ yielded handler)%list (raised handler)
      else body
  end.

(** The same statement around a body that can raise anything. *)
Definition g_try_any {A} (body : generator exception A)
           (classes : list exn) (handler : generator exception A)
  : generator exception A :=
  match raised body with
  | None => body
  | Some e =>
      if catches classes e
      then Gen (yielded body ++ yielded handler)%list (raised handler)
      else body
  end.

(** [for x in xs: body x], then [rest] when the loop ran to its end. *)
Fixpoint g_for {E A B} (xs : list A) (body : A -> generator E B)
         (rest : generator E B) : generator E B :=
  match xs with
  | [] => rest
  | x :: xs' => g_seq (body x) (g_for xs' body rest)
  end.

(** [for x in g: body x] over another generator: the loop body sees the
    values [g] yielded; when [g] ends by raising, so does the loop. *)
Definition g_for_gen {E A B} (g : generator E A)
           (body : A -> generator E B) : generator E B :=
  g_for (yielded g) body
        (match raised g with Some e => g_raise e | None => g_return end).

(** A generator of OS-level code iterated by code that can raise
    anything. *)
Definition os_gen {A} (g : gen A) : generator exception A :=
  Gen (yielded g) (option_map OS (raised g)).

End Exn.

Export Exn.

(** [x ← call; rest] threads a raise through a function body. *)
#[global] Instance result_mbind {E} : MBind (outcome E) :=
  fun A B k r => bind r k.
#[global] Instance result_mret {E} : MRet (outcome E) := fun A a => Ok a.

(* ===================================================================== *)
(** ** Resolved paths ([pathlib]) *)
(* ===================================================================== *)

Module PurePath.

(** The components below the filesystem root; the root is [[]]. *)
Definition Path : Type := list string.

(** [p.name]: the final component, empty for the root. *)
Definition name (p : Path) : string := List.last p "".

(** [p.parent]: the root is its own parent. *)
Definition parent (p : Path) : Path := removelast p.

(** [os.path.join(directory, entry_name)] *)
Definition joinpath (p : Path) (child : string) : Path := (p ++ [child])%list.

(** [p == q] *)
Definition eqb (p q : Path) : bool := bool_decide (p = q).

(** [str(p)] *)
Definition to_str (p : Path) : string :=
  String.append "/" (String.concat "/" p).

(** [p.suffix], as [pathlib] defines it up to Python 3.13: with
    [i = name.rfind('.')], the text from [i] on when
    [0 < i < len(name) - 1], else the empty string. *)
Definition suffix (p : Path) : string :=
  let name := name p in
  let i := Py.rfind "."%char name in
  if (0 <? i) && (i <? Py.len name - 1) then Py.slice_from i name
  else "".

End PurePath.

Abbreviation Path := PurePath.Path.

(* ===================================================================== *)
(** ** The filesystem as the scanner observes it *)
(* ===================================================================== *)

Module FS.

(** Epoch seconds as [os.stat] reports them. *)
Definition timestamp : Type := Z.

Record stat_result : Type := {
  st_size : Z;
  st_ctime : timestamp;
  st_mtime : timestamp
}.

(** What the OS answers, at record-building time, for one file:
    - [os_stat]: [path.stat()];
    - [open_rb]: the bytes [open(path, "rb")] delivers;
    - [open_text]: the characters the text layer delivers for
      [open(path, "r", encoding="utf-8", errors="ignore")].
    Each of the three may fail on its own: the file can change between
    two calls. *)
Record FileObs : Type := {
  os_stat : result stat_result;
  open_rb : result (list byte);
  open_text : result string
}.

(** [f.read(n)] on a binary handle. *)
Definition read_bytes (f : FileObs) (n : nat) : result (list byte) :=
  content ← open_rb f; Ok (firstn n content).

(** [f.read(n)] on a text handle. *)
Definition read_text (f : FileObs) (n : nat) : result string :=
  stream ← open_text f; Ok (Py.take n stream).

(** A directory delivers [entries] and then, when [fail] is set, its
    listing raises ([entries = []] when [os.scandir] itself raises).
    [Special] is a socket, FIFO or device.  [Unstatable e] is an entry
    that cannot be examined: [is_dir], [is_file] and [stat] on it or
    on anything below it raise [e]. *)
#[warnings="-register-all"]
Inductive node : Type :=
| RegFile (f : FileObs)
| Directory (entries : list (string * node)) (fail : option exn)
| Symlink (target : node)
| BrokenLink
| Special
| Unstatable (e : exn).

(** [entry.is_dir(follow_symlinks=follow)] *)
Fixpoint is_dir (n : node) (follow : bool) : result bool :=
  match n with
  | Directory _ _ => Ok true
  | Symlink t => if follow then is_dir t follow else Ok false
  | Unstatable e => Raise e
  | _ => Ok false
  end.

(** [entry.is_file(follow_symlinks=follow)] *)
Fixpoint is_file (n : node) (follow : bool) : result bool :=
  match n with
  | RegFile _ => Ok true
  | Symlink t => if follow then is_file t follow else Ok false
  | Unstatable e => Raise e
  | _ => Ok false
  end.

(** [os.path.islink(entry.path)] *)
Definition islink (n : node) : bool :=
  match n with Symlink _ | BrokenLink => true | _ => false end.

(** The node a path leads to, links on the way followed. *)
Fixpoint lookup (n : node) (p : Path) {struct n} : option node :=
  match p with
  | [] => Some n
  | c :: rest =>
      match n with
      | Directory entries _ =>
          (fix find (es : list (string * node)) : option node :=
             match es with
             | [] => None
             | (ename, child) :: es' =>
                 if String.eqb ename c then lookup child rest else find es'
             end) entries
      | Symlink t => lookup t p
      | _ => None
      end
  end.

(** The node a final link chain ends in; [None] for a broken link. *)
Fixpoint resolve (n : node) : option node :=
  match n with
  | Symlink t => resolve t
  | BrokenLink => None
  | _ => Some n
  end.

(** What [os.stat(p)] reaches, links followed: the node, [None] when
    the path names nothing ([ENOENT], [ENOTDIR]), or the error of an
    entry on the way that cannot be examined, such as one below a
    directory without search permission. *)
Fixpoint stat_at (n : node) (p : Path) {struct n} : result (option node) :=
  match n with
  | Symlink t => stat_at t p
  | BrokenLink => Ok None
  | Unstatable e => Raise e
  | Directory entries _ =>
      match p with
      | [] => Ok (Some n)
      | c :: rest =>
          (fix find (es : list (string * node)) : result (option node) :=
             match es with
             | [] => Ok None
             | (ename, child) :: es' =>
                 if String.eqb ename c then stat_at child rest else find es'
             end) entries
      end
  | RegFile _ | Special =>
      match p with
      | [] => Ok (Some n)
      | _ :: _ => Ok None
      end
  end.

(** The errors [Path.exists] takes for an absent path ([ENOENT],
    [ENOTDIR]); any other it lets through. *)
Definition ignorable (e : exn) : bool :=
  match e with
  | FileNotFoundError | NotADirectoryError => true
  | PermissionError | OSError => false
  end.

(** [p.exists()], as [pathlib] defines it up to Python 3.12:
    [try: self.stat()], [False] on an ignorable [OSError], the error
    itself on any other. *)
Definition exists_ (fs : node) (p : Path) : result bool :=
  match stat_at fs p with
  | Ok (Some _) => Ok true
  | Ok None => Ok false
  | Raise e => if ignorable e then Ok false else Raise e
  end.

(** A file that has gone away: every call raises. *)
Definition vanished : FileObs :=
  {| os_stat := Raise FileNotFoundError;
     open_rb := Raise FileNotFoundError;
     open_text := Raise FileNotFoundError |}.

(** What the OS answers for the regular file at [p]. *)
Definition observe (fs : node) (p : Path) : FileObs :=
  match lookup fs p ≫= resolve with
  | Some (RegFile f) => f
  | _ => vanished
  end.

End FS.

Export FS.

(* ===================================================================== *)
(** ** [Core/scanner.py] *)
(* ===================================================================== *)

Module Scanner.

(** A [datetime] is kept as the instant it denotes. *)
Definition datetime : Type := Z.

(** [@dataclass(frozen=True) class FileMeta] *)
Record FileMeta : Type := {
  path : string;
  name : string;
  parent : string;
  extension : string;
  size_bytes : Z;
  created : datetime;
  modified : datetime;
  is_text : bool;
  preview : option string
}.

(** The fields [__init__] sets. *)
Record FileScanner : Type := {
  root : Path;
  include_hidden : bool;
  follow_symlinks : bool
}.

Definition SMALL_PREVIEW_LIMIT : Z := 1000000.
Definition PREVIEW_CHARS : nat := 500.

(** [FileScanner.__init__]; [resolved] is what
    [Path(root).expanduser().resolve()] returns or raises. *)
Definition __init__ (fs : node) (resolved : fallible Path)
           (include_hidden follow_symlinks : bool) : fallible FileScanner :=
  root ← resolved;
  found ← os_call (FS.exists_ fs root);
  if negb found then Raise (OS FileNotFoundError)
  else Ok {| root := root;
             include_hidden := include_hidden;
             follow_symlinks := follow_symlinks |}.

(** The [while True] loop of [_is_hidden], from [p] upward.  It ends
    because every step to a different parent shortens the path. *)
Equations? hidden_walk (p : Path) : bool by wf (length p) lt :=
  hidden_walk p with Equations.Prop.Logic.inspect (Py.startswith (PurePath.name p) ".") := {
    | exist _ true _ => true
    | exist _ false _ with Equations.Prop.Logic.inspect (PurePath.eqb (PurePath.parent p) p) := {
        | exist _ true _ => false
        | exist _ false Hne => hidden_walk (PurePath.parent p) } }.
Proof.
  unfold PurePath.eqb, PurePath.parent in *.
  apply bool_decide_eq_false in Hne.
  destruct p as [|c p']; [done|].
  rewrite removelast_firstn_len, length_firstn. simpl. lia.
Qed.

(** [FileScanner._is_hidden] *)
Definition _is_hidden (name : string) (parent : Path) : bool :=
  if Py.startswith name "." then true
  else hidden_walk parent.

(** Two library functions are parameters of the scanner.
    [bytes.decode("utf-8", errors="ignore")] returns a string for every
    input; the scanner drops its value.  [datetime.fromtimestamp]
    converts epoch seconds to local time; which timestamps it refuses,
    and with which exception, depends on the platform and the time
    zone. *)
Section WithCodec.
Variable decode_ignore : list byte -> string.
Variable fromtimestamp : FS.timestamp -> fallible datetime.

(** [FileScanner._looks_like_text] *)
Definition _looks_like_text (f : FileObs) (probe_bytes : nat) : result bool :=
  try_except
    (chunk ← FS.read_bytes f probe_bytes;
     if Py.bytes_contains x00 chunk then Ok false
     else let _ := decode_ignore chunk in Ok true)
    [OSError; PermissionError]
    (Ok false).

(** [FileScanner._safe_read_preview] *)
Definition _safe_read_preview (f : FileObs) (chars : nat)
  : result (option string) :=
  try_except
    (text ← FS.read_text f chars;
     Ok (Some (Py.join " " (Py.split text))))
    [OSError; PermissionError]
    (Ok None).

(** [FileScanner._ts_to_dt]: [datetime.fromtimestamp(ts)]. *)
Definition _ts_to_dt (ts : FS.timestamp) : fallible datetime :=
  fromtimestamp ts.

(** [FileScanner.path_to_metadata]; [f] is what the OS answers for
    [path]. *)
Definition path_to_metadata (f : FileObs) (path : Path)
  : fallible FileMeta :=
  st ← os_call (FS.os_stat f);
  let ext :=
    if Py.truthy (PurePath.suffix path)
    then Py.lower (Py.slice_from 1 (PurePath.suffix path))
    else "" in
  created ← _ts_to_dt (FS.st_ctime st);
  modified ← _ts_to_dt (FS.st_mtime st);
  is_text ← os_call (_looks_like_text f 1024);
  preview ←
    os_call (if is_text && (FS.st_size st <=? SMALL_PREVIEW_LIMIT)
             then _safe_read_preview f PREVIEW_CHARS
             else Ok None);
  Ok {| path := PurePath.to_str path;
        name := PurePath.name path;
        parent := PurePath.to_str (PurePath.parent path);
        extension := ext;
        size_bytes := FS.st_size st;
        created := created;
        modified := modified;
        is_text := is_text;
        preview := preview |}.

(** The body of the [for entry in it] loop of [_iter_paths], for the
    entry [ename] of [directory] whose node is [child]; [recurse] is
    [self._iter_paths] on that entry. *)
Definition visit_entry (self : FileScanner) (directory : Path)
           (ename : string) (child : node)
           (recurse : Path -> gen Path) : gen Path :=
  g_try
    (if negb (include_hidden self) && _is_hidden ename directory
     then g_return
     else
       g_call (FS.is_dir child (follow_symlinks self)) (fun d =>
         if d : bool then
           if negb (follow_symlinks self) && FS.islink child
           then g_return
           else recurse (PurePath.joinpath directory ename)
         else
           g_call (FS.is_file child (follow_symlinks self)) (fun f =>
             if f : bool then g_yield (PurePath.joinpath directory ename)
             else g_return)))
    [PermissionError; OSError]
    g_return.

(** [FileScanner._iter_paths(directory)], where [n] is the node the
    filesystem holds at [directory].  [os.scandir] follows a link to
    its target and raises on anything that is not a directory. *)
Fixpoint _iter_paths (self : FileScanner) (n : node) (directory : Path)
         {struct n} : gen Path :=
  match n with
  | Directory entries fail =>
      g_try
        ((fix loop (es : list (string * node)) : gen Path :=
            match es with
            | [] =>
                match fail with
                | Some e => g_raise e
                | None => g_return
                end
            | (ename, child) :: es' =>
                g_seq (visit_entry self directory ename child
                                   (_iter_paths self child))
                      (loop es')
            end) entries)
        [PermissionError; OSError]
        g_return
  | Symlink target => _iter_paths self target directory
  | BrokenLink =>
      g_try (g_raise FileNotFoundError) [PermissionError; OSError] g_return
  | RegFile _ | Special | Unstatable _ =>
      g_try (g_raise NotADirectoryError) [PermissionError; OSError] g_return
  end.

(** [self._iter_paths(self.root)] on the filesystem [fs]. *)
Definition iter_root (fs : node) (self : FileScanner) : gen Path :=
  match FS.lookup fs (root self) with
  | Some n => _iter_paths self n (root self)
  | None =>
      g_try (g_raise FileNotFoundError) [PermissionError; OSError] g_return
  end.

(** [FileScanner.scan] *)
Definition scan (fs : node) (self : FileScanner)
  : generator exception FileMeta :=
  g_for_gen (os_gen (iter_root fs self)) (fun path =>
    g_try_any
      (g_call (path_to_metadata (FS.observe fs path) path) g_yield)
      [PermissionError; OSError]
      g_return).

End WithCodec.

End Scanner.

(* ===================================================================== *)
(** ** Python containers used by [utils.py] *)
(* ===================================================================== *)

Module PyData.

(** The [<] of a key type ([__lt__]), the only comparison [list.sort]
    makes. *)
Class PyLt (K : Type) : Type := py_lt : K -> K -> bool.

#[global] Instance Z_PyLt : PyLt Z := Z.ltb.

(** The keys [list.sort] orders consistently: [<] is a strict weak
    order. *)
Class StrictWeak (K : Type) `{PyLt K} : Prop := {
  lt_asym : forall a b, py_lt a b = true -> py_lt b a = false;
  lt_negtrans : forall a b c,
    py_lt a b = false -> py_lt b c = false -> py_lt a c = false
}.

#[global] Instance Z_StrictWeak : StrictWeak Z.
Proof.
  split; unfold py_lt, Z_PyLt; intros; rewrite ?Z.ltb_lt, ?Z.ltb_ge in *; lia.
Qed.

Section Sorting.
Context {A K : Type} `{PyLt K}.
Variable key : A -> K.

(** The stable ascending sort [list.sort] performs, as insertion from
    the right: [x] goes in front of the first element that is not
    smaller than it, hence in front of its equals that came later. *)
Fixpoint insert_by (x : A) (s : list A) : list A :=
  match s with
  | [] => [x]
  | y :: s' =>
      if py_lt (key y) (key x) then y :: insert_by x s'
      else x :: y :: s'
  end.

Definition stable_sort (l : list A) : list A := foldr insert_by [] l.

(** [sorted(l, key=key, reverse=reverse)]: a new list; for
    [reverse=True] the list is reversed, sorted and reversed again. *)
Definition sorted (l : list A) (reversed : bool) : list A :=
  if reversed then reverse (stable_sort (reverse l)) else stable_sort l.

End Sorting.

(** A [dict] with string keys: the bindings in insertion order. *)
Definition dict (V : Type) : Type := list (string * V).

Section Dict.
Context {V : Type}.

(** [d.get(k)] *)
Fixpoint dict_get (k : string) (d : dict V) : option V :=
  match d with
  | [] => None
  | (k', v) :: d' => if String.eqb k k' then Some v else dict_get k d'
  end.

(** [d[k] = v]: a present key keeps its place, a new one goes last. *)
Fixpoint dict_set (k : string) (v : V) (d : dict V) : dict V :=
  match d with
  | [] => [(k, v)]
  | (k', v') :: d' =>
      if String.eqb k k' then (k', v) :: d'
      else (k', v') :: dict_set k v d'
  end.

(** [{k: v for k, v in pairs}] *)
Definition dict_of_pairs (pairs : list (string * V)) : dict V :=
  fold_left (fun d kv => dict_set (fst kv) (snd kv) d) pairs [].

End Dict.

(** [collections.Counter(iterable)]: each element bumps its count. *)
Definition Counter (iterable : list string) : dict Z :=
  fold_left (fun c elem => dict_set elem (default 0 (dict_get elem c) + 1) c)
            iterable [].

(** [Counter.most_common()]:
    [sorted(self.items(), key=itemgetter(1), reverse=True)]. *)
Definition most_common (c : dict Z) : list (string * Z) :=
  sorted snd c true.

(** List objects live in a heap, so that a function's effect on the
    list it was handed is part of what it computes. *)
Section Heap.
Context {A : Type}.

Definition alloc (h : gmap nat (list A)) (v : list A)
  : gmap nat (list A) * nat :=
  let r := fresh (dom h) in (<[r := v]> h, r).

(** [list(items)] *)
Definition list_copy (h : gmap nat (list A)) (items : nat)
  : option (gmap nat (list A) * nat) :=
  v ← h !! items; Some (alloc h v).

(** [sorted(items, key=key, reverse=reverse)] *)
Definition sorted_new {K : Type} `{PyLt K} (h : gmap nat (list A))
           (items : nat) (key : A -> K) (reverse : bool)
  : option (gmap nat (list A) * nat) :=
  v ← h !! items; Some (alloc h (sorted key v reverse)).

End Heap.

(** [l[:n]] for an [int] [n]: a negative [n] counts from the end. *)
Definition slice_to {A : Type} (l : list A) (n : Z) : list A :=
  if 0 <=? n then firstn (Z.to_nat n) l
  else firstn (Z.to_nat (Z.of_nat (length l) + n)) l.

(** [len(l)] *)
Definition len {A : Type} (l : list A) : Z := Z.of_nat (length l).

End PyData.

Export PyData.

(* ===================================================================== *)
(** ** [utils.py] *)
(* ===================================================================== *)

Module Utils.
Import Scanner.

Definition filter_by_extensions (items : list FileMeta) (exts : list string)
  : list FileMeta :=
  let exts_lc : gset string :=
    list_to_set (map (fun e => Py.lstrip "."%char (Py.lower e)) exts) in
  filter (fun m => Py.lower (extension m) ∈ exts_lc) items.

Definition filter_larger_than (items : list FileMeta) (min_kb : Z)
  : list FileMeta :=
  let limit := Z.max 0 min_kb * 1024 in
  filter (fun m => size_bytes m >= limit) items.

Definition only_text_files (items : list FileMeta) : list FileMeta :=
  filter (fun m => is_text m = true) items.

(** [m.extension or "-"] *)
Definition extension_or_dash (m : FileMeta) : string :=
  if Py.truthy (extension m) then extension m else "-".

Definition count_by_extension (items : list FileMeta) : dict Z :=
  let c := Counter (map extension_or_dash items) in
  dict_of_pairs (most_common c).

(** [sort_by]: [items] is the list object the caller passes, in the
    heap [h]; the result is the heap afterwards and the list returned. *)
Definition sort_by {K : Type} `{PyLt K} (h : gmap nat (list FileMeta))
           (items : nat) (key_func : FileMeta -> K) (reverse : bool)
  : option (gmap nat (list FileMeta) * nat) :=
  '(h1, tmp) ← list_copy h items;
  sorted_new h1 tmp key_func reverse.

(** The [human_size] lambda of [brief_view] (and [_hsize] of the
    scanner's test runner). *)
Definition human_size (b : Z) : string :=
  if b <? 1048576 then String.append (Py.format_fixed 1 b 1024) " KB"
  else String.append (Py.format_fixed 2 b 1048576) " MB".

(** [m.modified.isoformat(timespec="seconds")] renders a local time; the
    rendering is a parameter. *)
Section View.
Variable isoformat_seconds : datetime -> string.

(** [brief_view]: one dictionary per record, its keys in the order
    written. *)
Definition brief_view (items : list FileMeta) : list (dict string) :=
  map (fun m =>
         [ ("name", name m);
           ("ext", if Py.truthy (extension m) then extension m else "-");
           ("size", human_size (size_bytes m));
           ("folder", parent m);
           ("modified", isoformat_seconds (modified m)) ])
      items.

End View.

End Utils.

(* ===================================================================== *)
(** ** [main.py] *)
(* ===================================================================== *)

Module Main.
Import Scanner Utils.



Section Run.
Variable decode_ignore : list byte -> string.
Variable fromtimestamp : FS.timestamp -> fallible datetime.
Variable isoformat_seconds : datetime -> string.

(** [sort_by(files, key_func=lambda m: m.size_bytes, reverse=True)[:show]],
    with [files] the only list object in the heap. *)
Definition largest (files : list FileMeta) (show : Z) : list FileMeta :=
  match sort_by {[ 0%nat := files ]} 0%nat size_bytes true with
  | Some (h, r) => slice_to (default [] (h !! r)) show
  | None => []
  end.


End Run.

End Main.

(* ===================================================================== *)
(** ** Sample data *)
(* ===================================================================== *)

Module Demo.
Import Scanner.

Definition plain (size : Z) (bytes : list byte) (text : string) : FileObs :=
  {| os_stat := Ok {| st_size := size; st_ctime := 5; st_mtime := 7 |};
     open_rb := Ok bytes;
     open_text := Ok text |}.

(** "hello world" *)
Definition hello_bytes : list byte :=
  [x68; x65; x6c; x6c; x6f; x20; x77; x6f; x72; x6c; x64].

(** The tree of the end-to-end scenario, under [/home], with an
    unreadable directory added. *)
Definition demo_fs : node :=
  Directory
    [ ("home",
       Directory
         [ ("notes.txt", RegFile (plain 11 hello_bytes "hello world"));
           ("image.bin", RegFile (plain 3 [x68; x00; x69] "h"));
           (".hidden", Directory [("secret.txt", RegFile (plain 0 [] ""))] None);
           ("locked", Directory [] (Some PermissionError)) ]
         None) ]
    None.

Definition demo_scanner : FileScanner :=
  {| root := ["home"]; include_hidden := false; follow_symlinks := false |}.

(** A codec that keeps the bytes below 128. *)
Definition ascii_codec (bs : list byte) : string :=
  string_of_list_ascii
    (map (fun b => ascii_of_N (Byte.to_N b))
         (List.filter (fun b => (Byte.to_N b <? 128)%N) bs)).

(** [datetime.fromtimestamp] on a host whose zone is UTC: it converts
    the instants of the years 1 to 9999 and raises [ValueError] on any
    other. *)
Definition DATETIME_MIN : Z := -62135596800.
Definition DATETIME_MAX : Z := 253402300799.

Definition utc_fromtimestamp (ts : timestamp) : fallible datetime :=
  if (DATETIME_MIN <=? ts) && (ts <=? DATETIME_MAX) then Ok ts
  else Raise ValueError.

Definition notes_meta : FileMeta :=
  {| path := "/home/notes.txt"; name := "notes.txt"; parent := "/home";
     extension := "txt"; size_bytes := 11; created := 5; modified := 7;
     is_text := true; preview := Some "hello world" |}.

Definition image_meta : FileMeta :=
  {| path := "/home/image.bin"; name := "image.bin"; parent := "/home";
     extension := "bin"; size_bytes := 3; created := 5; modified := 7;
     is_text := false; preview := None |}.

(** A file that can be probed but whose second opening is refused. *)
Definition refused_later : FileObs :=
  {| os_stat := Ok {| st_size := 11; st_ctime := 5; st_mtime := 7 |};
     open_rb := Ok hello_bytes;
     open_text := Raise PermissionError |}.

Definition refused_fs : node :=
  Directory [("home", Directory [("notes.txt", RegFile refused_later)] None)]
            None.

Definition refused_meta : FileMeta :=
  {| path := "/home/notes.txt"; name := "notes.txt"; parent := "/home";
     extension := "txt"; size_bytes := 11; created := 5; modified := 7;
     is_text := true; preview := None |}.





(** A scanner that includes hidden entries, and a dot-file. *)
Definition open_scanner : FileScanner :=
  {| root := ["home"]; include_hidden := true; follow_symlinks := false |}.

Definition meta (name ext : string) (size : Z) : FileMeta :=
  {| path := String.append "/" name; name := name; parent := "/";
     extension := ext; size_bytes := size; created := 0; modified := 0;
     is_text := true; preview := None |}.

End Demo.

(* ===================================================================== *)
(** ** Vocabulary of the statements *)
(* ===================================================================== *)

(** Every character of [s] passes [P]. *)
Fixpoint all_chars (P : ascii -> bool) (s : string) : bool :=
  match s with
  | EmptyString => true
  | String c s' => P c && all_chars P s'
  end.

Definition not_dot (c : ascii) : bool := negb (Ascii.eqb c "."%char).

Definition not_upper (c : ascii) : bool := negb (Py.is_upper_char c).

Definition not_space (c : ascii) : bool := negb (Py.isspace c).

(** No two neighbouring characters of [s] are both whitespace. *)
Fixpoint no_double_space (s : string) : bool :=
  match s with
  | EmptyString => true
  | String a s' =>
      match s' with
      | EmptyString => true
      | String b _ => negb (Py.isspace a && Py.isspace b)
      end && no_double_space s'
  end.

Definition starts_with_space (s : string) : bool :=
  match s with
  | EmptyString => false
  | String a _ => Py.isspace a
  end.

Fixpoint ends_with_space (s : string) : bool :=
  match s with
  | EmptyString => false
  | String a s' =>
      match s' with
      | EmptyString => Py.isspace a
      | String _ _ => ends_with_space s'
      end
  end.

(** A word: not empty, and free of whitespace. *)
Definition is_word (w : string) : bool := Py.truthy w && all_chars not_space w.

(** [s] is the first [length s] characters of [t]. *)
Definition is_prefix (s t : string) : Prop := exists rest, t = String.append s rest.

(** The name begins with a dot. *)
Definition dotted (c : string) : bool := Py.startswith c ".".

(** [name] is [stem.e]: a last dot with text on both sides of it. *)
Definition has_extension (name stem e : string) : Prop :=
  name = String.append stem (String "."%char e)
  /\ stem <> "" /\ e <> "" /\ all_chars not_dot e = true.

Section RecordVocabulary.
Import Scanner.
Variable decode_ignore : list byte -> string.
Variable fromtimestamp : FS.timestamp -> fallible datetime.

(** The extension [path_to_metadata] computes for a path. *)
Definition ext_of (p : Path) : string :=
  if Py.truthy (PurePath.suffix p)
  then Py.lower (Py.slice_from 1 (PurePath.suffix p))
  else "".

(** The classification [_looks_like_text] arrives at. *)
Definition is_text_of (f : FileObs) (probe_bytes : nat) : bool :=
  match open_rb f with
  | Ok content => negb (Py.bytes_contains x00 (firstn probe_bytes content))
  | Raise _ => false
  end.

(** The preview [path_to_metadata] stores. *)
Definition preview_of (f : FileObs) (is_text : bool) (size : Z)
  : option string :=
  if is_text && (size <=? SMALL_PREVIEW_LIMIT)
  then match open_text f with
       | Ok stream =>
           Some (Py.join " " (Py.split (Py.take PREVIEW_CHARS stream)))
       | Raise _ => None
       end
  else None.

(** The loop body of [scan]. *)
Definition scan_body (fs : node) (p : Path) : generator exception FileMeta :=
  g_try_any
    (g_call (path_to_metadata decode_ignore fromtimestamp (FS.observe fs p) p)
            g_yield)
    [PermissionError; OSError] g_return.

(** The record built for [p], when building it returned. *)
Definition record_of (fs : node) (p : Path) : option FileMeta :=
  match path_to_metadata decode_ignore fromtimestamp (FS.observe fs p) p with
  | Ok m => Some m
  | Raise _ => None
  end.

(** The exception that building the record for [p] raises past the
    [except] clause of [scan], if any. *)
Definition escaping (fs : node) (p : Path) : option exception :=
  match path_to_metadata decode_ignore fromtimestamp (FS.observe fs p) p with
  | Ok _ => None
  | Raise e => if catches [PermissionError; OSError] e then None else Some e
  end.


(** What one round of the loop in [_iter_paths] contributes. *)
Definition entry_paths (self : FileScanner) (directory : Path)
           (e : string * node) : gen Path :=
  visit_entry self directory (fst e) (snd e) (_iter_paths self (snd e)).

Definition listing_end (fail : option exn) : gen Path :=
  match fail with Some e => g_raise e | None => g_return end.

End RecordVocabulary.

Section OrderVocabulary.
Context {A K : Type} `{PyLt K}.
Variable key : A -> K.

(** Two keys neither of which is smaller than the other. *)
Definition same_key (a b : K) : bool := negb (py_lt a b) && negb (py_lt b a).

(** [a] may stand before [b] in ascending order. *)
Definition ascending (a b : A) : Prop := py_lt (key b) (key a) = false.

(** [a] may stand before [b] in descending order. *)
Definition descending (a b : A) : Prop := py_lt (key a) (key b) = false.

End OrderVocabulary.

(** How often [k] occurs in [ks]. *)
Definition occurrences (k : string) (ks : list string) : Z :=
  Z.of_nat (length (filter (fun x => x = k) ks)).

(** The distinct elements of [ks], each at its first occurrence. *)
Fixpoint first_seen (ks : list string) : list string :=
  match ks with
  | [] => []
  | k :: ks' => k :: filter (fun x => x <> k) (first_seen ks')
  end.

(** The tally of [ks]: every distinct element with its number of
    occurrences, in order of first occurrence. *)
Definition tally (ks : list string) : dict Z :=
  map (fun k => (k, occurrences k ks)) (first_seen ks).

Section CountVocabulary.
Import Scanner.

(** How many records bear the extension [e]. *)
Definition records_with (e : string) (items : list FileMeta) : Z :=
  Z.of_nat (length (filter (fun m => extension m = e) items)).

End CountVocabulary.

(* ===================================================================== *)
(** * Properties *)
(* ===================================================================== *)

(** ** Strings *)

#[local] Arguments String.append : simpl nomatch.
#[local] Arguments Py.take : simpl never.
#[local] Arguments Py.split : simpl never.
#[local] Arguments Py.join : simpl never.

Section StringFacts.

Lemma lower_char_idem c : Py.lower_char (Py.lower_char c) = Py.lower_char c.
Proof. destruct c as [[] [] [] [] [] [] [] []]; reflexivity. Qed.

Lemma lower_char_not_upper c : Py.is_upper_char (Py.lower_char c) = false.
Proof. destruct c as [[] [] [] [] [] [] [] []]; reflexivity. Qed.

Lemma lower_char_dot c :
  Ascii.eqb (Py.lower_char c) "."%char = Ascii.eqb c "."%char.
Proof. destruct c as [[] [] [] [] [] [] [] []]; reflexivity. Qed.

Lemma lower_idem s : Py.lower (Py.lower s) = Py.lower s.
Proof. induction s as [|c s IH]; simpl; [done|]. by rewrite lower_char_idem, IH. Qed.

Lemma lower_not_upper s : all_chars not_upper (Py.lower s) = true.
Proof.
  induction s as [|c s IH]; simpl; [done|].
  unfold not_upper at 1. by rewrite lower_char_not_upper, IH.
Qed.

Lemma lower_not_dot s : all_chars not_dot (Py.lower s) = all_chars not_dot s.
Proof.
  induction s as [|c s IH]; simpl; [done|].
  unfold not_dot at 1 3. by rewrite lower_char_dot, IH.
Qed.

Lemma length_append (a b : string) :
  String.length (String.append a b) = (String.length a + String.length b)%nat.
Proof. induction a as [|x a IH]; simpl; [done|]. by rewrite IH. Qed.

Lemma all_chars_append P a b :
  all_chars P (String.append a b) = all_chars P a && all_chars P b.
Proof.
  induction a as [|x a IH]; simpl; [done|]. rewrite IH. by rewrite andb_assoc.
Qed.

Lemma drop_append (a b : string) :
  Py.drop (String.length a) (String.append a b) = b.
Proof. induction a as [|x a IH]; simpl; [by destruct b|]. done. Qed.

(** What [rfind_from] returns: [last] when the character is absent,
    else the offset of the occurrence that only dot-free text follows. *)
Lemma rfind_from_spec c s : forall i last,
  (all_chars (fun a => negb (Ascii.eqb a c)) s = true
   /\ Py.rfind_from c s i last = last)
  \/ (exists pre post,
        s = String.append pre (String c post)
        /\ all_chars (fun a => negb (Ascii.eqb a c)) post = true
        /\ Py.rfind_from c s i last = i + Py.len pre).
Proof.
  induction s as [|a s IH]; intros i last; simpl.
  - left. done.
  - destruct (IH (i + 1) (if Ascii.eqb a c then i else last))
      as [[Hno Hr]|(pre & post & -> & Hpost & Hr)].
    + destruct (Ascii.eqb a c) eqn:Hac.
      * right. exists "", s. apply Ascii.eqb_eq in Hac as ->.
        repeat split; [done|]. rewrite Hr. unfold Py.len. simpl. lia.
      * left. by rewrite Hno.
    + right. exists (String a pre), post. repeat split; [done|].
      rewrite Hr. unfold Py.len. simpl String.length. lia.
Qed.

(** A text splits in at most one way around its last dot. *)
Lemma last_dot_unique pre post pre' post' :
  String.append pre (String "."%char post)
  = String.append pre' (String "."%char post') ->
  all_chars not_dot post = true -> all_chars not_dot post' = true ->
  pre = pre' /\ post = post'.
Proof.
  revert pre'. induction pre as [|a pre IH]; intros [|a' pre'] Heq Hp Hp';
    simpl in Heq.
  - by inversion Heq.
  - inversion Heq as [[Ha Hrest]]. subst.
    rewrite all_chars_append in Hp. simpl in Hp.
    rewrite andb_false_r in Hp. done.
  - inversion Heq as [[Ha Hrest]]. subst.
    rewrite all_chars_append in Hp'. simpl in Hp'.
    rewrite andb_false_r in Hp'. done.
  - inversion Heq as [[Ha Hrest]]. subst.
    destruct (IH pre' Hrest Hp Hp') as [-> ->]. done.
Qed.

End StringFacts.

(** ** Generators and handlers *)

Section GenFacts.

(** [except (PermissionError, OSError)] and [except (OSError,
    PermissionError)] handle every OS-level exception. *)
Lemma handles_os e : handles [PermissionError; OSError] e = true.
Proof. by destruct e. Qed.

Lemma handles_os' e : handles [OSError; PermissionError] e = true.
Proof. by destruct e. Qed.

Lemma try_except_os {A} (body handler : result A) :
  try_except body [OSError; PermissionError] handler
  = match body with Ok a => Ok a | Raise _ => handler end.
Proof. destruct body as [a|e]; [done|]. unfold try_except. by rewrite handles_os'. Qed.

Lemma g_try_os {A} (body : gen A) :
  g_try body [PermissionError; OSError] g_return = Gen (yielded body) None.
Proof.
  unfold g_try. destruct body as [ys [e|]]; [|done].
  cbn [raised yielded]. rewrite handles_os. simpl. by rewrite app_nil_r.
Qed.

Lemma g_seq_quiet {E A} (g1 g2 : generator E A) :
  raised g1 = None ->
  g_seq g1 g2 = Gen (yielded g1 ++ yielded g2)%list (raised g2).
Proof. unfold g_seq. by intros ->. Qed.

(** A loop whose body never raises yields what the bodies yield, in
    order, and ends as what follows it ends. *)
Lemma g_for_quiet {E A B} (xs : list A) (body : A -> generator E B)
      (rest : generator E B) :
  (forall x, x ∈ xs -> raised (body x) = None) ->
  g_for xs body rest
  = Gen (flat_map (fun x => yielded (body x)) xs ++ yielded rest)%list
        (raised rest).
Proof.
  induction xs as [|x xs IH]; intros Hq; simpl.
  - by destruct rest.
  - rewrite g_seq_quiet by (apply Hq; left).
    rewrite IH by (intros y Hy; apply Hq; by right).
    simpl. by rewrite app_assoc.
Qed.

(** A loop stops in the first round whose body raises: the rounds
    before it have yielded, the rounds after it never run. *)
Lemma g_for_stops {E A B} (xs1 xs2 : list A) (x : A)
      (body : A -> generator E B) (rest : generator E B) e :
  (forall y, y ∈ xs1 -> raised (body y) = None) ->
  raised (body x) = Some e ->
  g_for (xs1 ++ x :: xs2) body rest
  = Gen (flat_map (fun y => yielded (body y)) xs1 ++ yielded (body x))%list
        (Some e).
Proof.
  induction xs1 as [|y xs1 IH]; intros Hq Hx; simpl.
  - unfold g_seq. rewrite Hx. destruct (body x) as [ys r]. simpl in *.
    by subst.
  - rewrite g_seq_quiet by (apply Hq; left).
    rewrite IH by (first [intros z Hz; apply Hq; by right | done]).
    simpl. by rewrite app_assoc.
Qed.

(** Whatever a loop yields, one of its rounds or what follows it
    yielded; when it raises, one of them raised. *)
Lemma g_for_yielded_inv {E A B} (xs : list A) (body : A -> generator E B)
      (rest : generator E B) y :
  y ∈ yielded (g_for xs body rest) ->
  (exists x, x ∈ xs /\ y ∈ yielded (body x)) \/ y ∈ yielded rest.
Proof.
  induction xs as [|x xs IH]; simpl; [by right|].
  unfold g_seq. destruct (raised (body x)) as [e|].
  - intros Hy. left. exists x. split; [left|done].
  - cbn [yielded]. rewrite elem_of_app. intros [Hy|Hy].
    + left. exists x. split; [left|done].
    + destruct (IH Hy) as [(x' & Hx' & Hy')|Hr]; [|by right].
      left. exists x'. split; [by right|done].
Qed.

Lemma g_for_quiet_inv {E A B} (xs : list A) (body : A -> generator E B)
      (rest : generator E B) :
  raised (g_for xs body rest) = None ->
  forall x, x ∈ xs -> raised (body x) = None.
Proof.
  induction xs as [|x xs IH]; simpl; intros Hr y Hy.
  - by apply elem_of_nil in Hy.
  - unfold g_seq in Hr. destruct (raised (body x)) as [e|] eqn:Hb.
    + congruence.
    + apply elem_of_cons in Hy as [->|Hy]; [done|]. by apply IH.
Qed.


End GenFacts.

(** ** Records built by [path_to_metadata] *)

Section RecordFacts.
Import Scanner.
Variable decode_ignore : list byte -> string.
Variable fromtimestamp : FS.timestamp -> fallible datetime.

Lemma looks_like_text_total f n :
  _looks_like_text decode_ignore f n = Ok (is_text_of f n).
Proof.
  unfold _looks_like_text, is_text_of. rewrite try_except_os.
  unfold FS.read_bytes. destruct (open_rb f) as [content|e]; simpl; [|done].
  by destruct (Py.bytes_contains x00 (firstn n content)).
Qed.

Lemma safe_read_preview_total f n :
  _safe_read_preview f n
  = Ok (match open_text f with
        | Ok stream => Some (Py.join " " (Py.split (Py.take n stream)))
        | Raise _ => None
        end).
Proof.
  unfold _safe_read_preview. rewrite try_except_os.
  unfold FS.read_text. by destruct (open_text f).
Qed.

(** [path_to_metadata] raises when [stat] does, or when one of the two
    timestamps is refused; otherwise the record is determined field by
    field. *)
Lemma path_to_metadata_eq f p :
  path_to_metadata decode_ignore fromtimestamp f p
  = match os_stat f with
    | Raise e => Raise (OS e)
    | Ok st =>
        match fromtimestamp (st_ctime st) with
        | Raise e => Raise e
        | Ok c =>
            match fromtimestamp (st_mtime st) with
            | Raise e => Raise e
            | Ok mo =>
                Ok {| path := PurePath.to_str p;
                      name := PurePath.name p;
                      parent := PurePath.to_str (PurePath.parent p);
                      extension := ext_of p;
                      size_bytes := st_size st;
                      created := c;
                      modified := mo;
                      is_text := is_text_of f 1024;
                      preview :=
                        preview_of f (is_text_of f 1024) (st_size st) |}
            end
        end
    end.
Proof.
  unfold path_to_metadata, _ts_to_dt.
  destruct (os_stat f) as [st|e]; [|done].
  cbn [os_call mbind result_mbind bind].
  destruct (fromtimestamp (st_ctime st)) as [c|e]; [|done].
  destruct (fromtimestamp (st_mtime st)) as [mo|e]; [|done].
  rewrite looks_like_text_total.
  cbn [os_call mbind result_mbind bind]. unfold preview_of.
  destruct (is_text_of f 1024 && (st_size st <=? SMALL_PREVIEW_LIMIT)).
  - by rewrite safe_read_preview_total.
  - done.
Qed.

Lemma path_to_metadata_inv f p m :
  path_to_metadata decode_ignore fromtimestamp f p = Ok m ->
  exists st,
    os_stat f = Ok st
    /\ name m = PurePath.name p
    /\ path m = PurePath.to_str p
    /\ extension m = ext_of p
    /\ size_bytes m = st_size st
    /\ is_text m = is_text_of f 1024
    /\ preview m = preview_of f (is_text m) (size_bytes m).
Proof.
  rewrite path_to_metadata_eq. destruct (os_stat f) as [st|e]; [|done].
  destruct (fromtimestamp (st_ctime st)) as [c|e]; [|done].
  destruct (fromtimestamp (st_mtime st)) as [mo|e]; [|done].
  intros [= <-]. exists st. done.
Qed.


Lemma scan_body_eq fs p :
  scan_body decode_ignore fromtimestamp fs p
  = Gen (option_list (record_of decode_ignore fromtimestamp fs p))
        (escaping decode_ignore fromtimestamp fs p).
Proof.
  unfold scan_body, record_of, escaping, g_try_any.
  destruct (path_to_metadata _ _ _ _) as [m|e]; [done|].
  cbn [g_call g_raise raised yielded].
  by destruct (catches [PermissionError; OSError] e).
Qed.


End RecordFacts.

(** ** Whitespace collapsing: [" ".join(text.split())] *)

Section Collapse.

Lemma take_prefix n s : is_prefix (Py.take n s) s.
Proof.
  revert s. induction n as [|n IH]; intros [|c s]; try (by eexists).
  destruct (IH s) as [rest Hrest]. exists rest.
  change (Py.take (S n) (String c s)) with (String c (Py.take n s)).
  simpl. by rewrite <- Hrest.
Qed.

Lemma take_length n s : (String.length (Py.take n s) <= n)%nat.
Proof.
  revert s. induction n as [|n IH]; intros [|c s]; simpl; try lia.
  change (Py.take (S n) (String c s)) with (String c (Py.take n s)).
  simpl. specialize (IH s). lia.
Qed.

Lemma is_word_snoc cur c :
  cur = "" \/ is_word cur = true -> Py.isspace c = false ->
  is_word (String.append cur (String c "")) = true.
Proof.
  intros Hcur Hc. unfold is_word. rewrite all_chars_append. simpl.
  unfold not_space at 2. rewrite Hc. simpl.
  destruct Hcur as [->|Hw]; [done|].
  unfold is_word in Hw. apply andb_true_iff in Hw as [Ht ->].
  destruct cur; [done|]. done.
Qed.

Lemma split_from_words s : forall cur,
  cur = "" \/ is_word cur = true ->
  Forall (fun w => is_word w = true) (Py.split_from cur s).
Proof.
  induction s as [|c s IH]; intros cur Hcur; simpl.
  - destruct Hcur as [->|Hw]; simpl; [constructor|].
    assert (Py.truthy cur = true) as ->
      by (unfold is_word in Hw; by apply andb_true_iff in Hw as [? _]).
    by repeat constructor.
  - destruct (Py.isspace c) eqn:Hc.
    + destruct Hcur as [->|Hw]; simpl; [by apply IH; left|].
      assert (Py.truthy cur = true) as ->
        by (unfold is_word in Hw; by apply andb_true_iff in Hw as [? _]).
      constructor; [done|]. apply IH. by left.
    + apply IH. right. by apply is_word_snoc.
Qed.

Lemma concat_cons sep w ws :
  String.concat sep (w :: ws)
  = match ws with
    | [] => w
    | _ :: _ => String.append w (String.append sep (String.concat sep ws))
    end.
Proof. by destruct ws. Qed.

Lemma nospace_no_double w :
  all_chars not_space w = true -> no_double_space w = true.
Proof.
  induction w as [|a w IH]; [done|]. simpl. intros [Ha Hw]%andb_true_iff.
  rewrite IH by done. unfold not_space in Ha. apply negb_true_iff in Ha.
  rewrite Ha. by destruct w.
Qed.

Lemma nospace_ends w : all_chars not_space w = true -> ends_with_space w = false.
Proof.
  induction w as [|a w IH]; [done|]. simpl. intros [Ha Hw]%andb_true_iff.
  unfold not_space in Ha. apply negb_true_iff in Ha.
  destruct w; [done|]. by apply IH.
Qed.

Lemma no_double_space_glue w r :
  all_chars not_space w = true ->
  no_double_space r = true -> starts_with_space r = false ->
  no_double_space (String.append w (String " "%char r)) = true.
Proof.
  intros Hw Hr Hs. induction w as [|a w IH].
  - simpl. rewrite Hr. destruct r as [|b r]; [done|].
    simpl in Hs. by rewrite Hs.
  - simpl in Hw. apply andb_true_iff in Hw as [Ha Hw].
    unfold not_space in Ha. apply negb_true_iff in Ha.
    change (String.append (String a w) (String " "%char r))
      with (String a (String.append w (String " "%char r))).
    cbn [no_double_space]. rewrite IH by done. rewrite Ha.
    by destruct (String.append w (String " "%char r)).
Qed.

Lemma ends_with_space_append a b :
  b <> "" -> ends_with_space (String.append a b) = ends_with_space b.
Proof.
  intros Hb. induction a as [|x a IH]; [done|].
  change (String.append (String x a) b) with (String x (String.append a b)).
  cbn [ends_with_space]. rewrite IH.
  destruct (String.append a b) eqn:E; [|done].
  destruct a; simpl in E; [by subst|done].
Qed.

(** Words joined by single spaces: no whitespace run, nothing to trim. *)
Lemma join_words ws :
  Forall (fun w => is_word w = true) ws ->
  no_double_space (Py.join " " ws) = true
  /\ starts_with_space (Py.join " " ws) = false
  /\ ends_with_space (Py.join " " ws) = false.
Proof.
  unfold Py.join. induction 1 as [|w ws Hw Hws IH]; [done|].
  rewrite concat_cons. unfold is_word in Hw.
  apply andb_true_iff in Hw as [Hne Hns].
  destruct ws as [|w' ws'].
  - split_and!; [by apply nospace_no_double| |by apply nospace_ends].
    destruct w as [|a w]; [done|]. simpl in *.
    apply andb_true_iff in Hns as [Ha _]. by apply negb_true_iff in Ha.
  - destruct IH as (IH1 & IH2 & IH3). split_and!.
    + by apply no_double_space_glue.
    + destruct w as [|a w]; [done|]. simpl in *.
      apply andb_true_iff in Hns as [Ha _]. by apply negb_true_iff in Ha.
    + rewrite ends_with_space_append by done.
      cbn [ends_with_space]. 
      destruct (String.concat " " (w' :: ws')) eqn:E; [|done].
      exfalso. rewrite concat_cons in E. inversion Hws as [|? ? Hw' _]; subst.
      unfold is_word in Hw'. apply andb_true_iff in Hw' as [Hne' _].
      destruct w'; [done|]. by destruct ws'.
Qed.

(** Collapsing never makes a text longer. *)
Lemma join_split_from_length s : forall cur,
  (String.length (Py.join " " (Py.split_from cur s))
   <= String.length cur + String.length s)%nat.
Proof.
  unfold Py.join. induction s as [|c s IH]; intros cur; simpl.
  - destruct cur; simpl; lia.
  - destruct (Py.isspace c).
    + specialize (IH ""). simpl in IH. destruct cur as [|a cur]; simpl Py.truthy; cbv iota.
      * lia.
      * rewrite concat_cons. destruct (Py.split_from "" s).
        -- lia.
        -- rewrite !length_append. simpl String.length at 2. lia.
    + specialize (IH (String.append cur (String c ""))).
      rewrite length_append in IH. simpl in IH. lia.
Qed.

Lemma collapse_facts text :
  let pv := Py.join " " (Py.split text) in
  no_double_space pv = true
  /\ starts_with_space pv = false
  /\ ends_with_space pv = false
  /\ (String.length pv <= String.length text)%nat.
Proof.
  intros pv. subst pv.
  destruct (join_words (Py.split text)) as (H1 & H2 & H3).
  { apply split_from_words. by left. }
  split_and!; [done..|]. apply (join_split_from_length text "").
Qed.

End Collapse.

(** ** Hidden entries *)

Section Hidden.
Import Scanner.

Lemma path_snoc (p : Path) :
  p <> [] -> p = (PurePath.parent p ++ [PurePath.name p])%list.
Proof. intros Hp. by apply app_removelast_last. Qed.

Lemma parent_fixed (p : Path) : PurePath.parent p = p -> p = [].
Proof.
  intros Heq. destruct p as [|c p]; [done|].
  apply (f_equal length) in Heq. unfold PurePath.parent in Heq.
  rewrite removelast_firstn_len, length_firstn in Heq. simpl in Heq. lia.
Qed.

(** The upward walk finds a dotted name exactly when the path has a
    dotted component. *)
Lemma hidden_walk_spec (p : Path) : hidden_walk p = existsb dotted p.
Proof.
  apply (hidden_walk_elim (fun p b => b = existsb dotted p)); clear p.
  - intros p Hdot _. destruct (decide (p = [])) as [->|Hne]; [done|].
    rewrite (path_snoc p Hne), existsb_app. simpl.
    unfold dotted at 2. rewrite Hdot. by rewrite orb_true_r.
  - intros p Hfix Hdot _ _. unfold PurePath.eqb in Hfix.
    apply bool_decide_eq_true in Hfix. by rewrite (parent_fixed p Hfix).
  - intros p Hne Hdot IH _ _. unfold PurePath.eqb in Hne.
    apply bool_decide_eq_false in Hne.
    assert (p <> []) as Hp by (intros ->; by apply Hne).
    rewrite (path_snoc p Hp) at 2. rewrite existsb_app. simpl.
    unfold dotted at 2. rewrite Hdot, IH. by rewrite !orb_false_r.
Qed.

Lemma is_hidden_spec (name : string) (parent : Path) :
  _is_hidden name parent = dotted name || existsb dotted parent.
Proof.
  unfold _is_hidden, dotted at 1. rewrite hidden_walk_spec.
  by destruct (Py.startswith name ".").
Qed.


End Hidden.

(** ** The traversal *)

Section Traversal.
Import Scanner.

(** Induction over the filesystem tree, with the hypothesis available for
    every entry of a directory. *)
Section NodeInd.
Variable P : node -> Prop.
Hypothesis HReg : forall f, P (RegFile f).
Hypothesis HDir : forall entries fail,
  Forall (fun e => P (snd e)) entries -> P (Directory entries fail).
Hypothesis HSym : forall t, P t -> P (Symlink t).
Hypothesis HBroken : P BrokenLink.
Hypothesis HSpecial : P Special.
Hypothesis HUnstat : forall e, P (Unstatable e).

Fixpoint node_tree_ind (n : node) : P n :=
  match n with
  | RegFile f => HReg f
  | Directory entries fail =>
      HDir entries fail
        ((fix all (es : list (string * node)) : Forall (fun e => P (snd e)) es :=
            match es with
            | [] => @List.Forall_nil _ _
            | (ename, child) :: es' =>
                @List.Forall_cons _ (fun e => P (snd e)) (ename, child) es'
                                  (node_tree_ind child) (all es')
            end) entries)
  | Symlink t => HSym t (node_tree_ind t)
  | BrokenLink => HBroken
  | Special => HSpecial
  | Unstatable e => HUnstat e
  end.
End NodeInd.

Lemma iter_paths_dir self entries fail directory :
  _iter_paths self (Directory entries fail) directory
  = g_try (g_for entries (entry_paths self directory) (listing_end fail))
          [PermissionError; OSError] g_return.
Proof.
  cbn [_iter_paths]. f_equal.
  induction entries as [|[ename child] es IH]; [done|].
  cbn [g_for]. by rewrite <- IH.
Qed.

Lemma visit_entry_quiet self directory ename child recurse :
  raised (visit_entry self directory ename child recurse) = None.
Proof. unfold visit_entry. by rewrite g_try_os. Qed.

(** [_iter_paths] never raises. *)
Lemma iter_paths_quiet self n : forall directory,
  raised (_iter_paths self n directory) = None.
Proof.
  induction n as [f|entries fail _|t IH| | |e] using node_tree_ind;
    intros directory; try done.
  - rewrite iter_paths_dir. by rewrite g_try_os.
  - cbn [_iter_paths]. apply IH.
Qed.

(** The paths a directory yields are those its entries yield, in listing
    order; a failing listing only cuts the list of entries short. *)
Lemma iter_paths_dir_yielded self entries fail directory :
  yielded (_iter_paths self (Directory entries fail) directory)
  = flat_map (fun e => yielded (entry_paths self directory e)) entries.
Proof.
  rewrite iter_paths_dir, g_try_os. cbn [yielded].
  rewrite g_for_quiet by (intros; apply visit_entry_quiet).
  cbn [yielded]. destruct fail; simpl; by rewrite app_nil_r.
Qed.

(** What one entry contributes, case by case. *)
Lemma entry_paths_yielded self directory ename child :
  yielded (entry_paths self directory (ename, child))
  = if negb (include_hidden self) && _is_hidden ename directory then []
    else match FS.is_dir child (follow_symlinks self) with
         | Raise _ => []
         | Ok true =>
             if negb (follow_symlinks self) && FS.islink child then []
             else yielded (_iter_paths self child
                                       (PurePath.joinpath directory ename))
         | Ok false =>
             match FS.is_file child (follow_symlinks self) with
             | Ok true => [PurePath.joinpath directory ename]
             | _ => []
             end
         end.
Proof.
  unfold entry_paths, visit_entry. rewrite g_try_os. cbn [yielded fst snd].
  destruct (negb (include_hidden self) && _is_hidden ename directory); [done|].
  destruct (FS.is_dir child (follow_symlinks self)) as [[|]|e]; cbn [g_call]; [| |done].
  - by destruct (negb (follow_symlinks self) && FS.islink child).
  - by destruct (FS.is_file child (follow_symlinks self)) as [[|]|e].
Qed.


End Traversal.

(** ** The scan *)

Section ScanFacts.
Import Scanner.
Variable decode_ignore : list byte -> string.
Variable fromtimestamp : FS.timestamp -> fallible datetime.

Lemma iter_root_quiet fs self : raised (iter_root fs self) = None.
Proof.
  unfold iter_root. destruct (FS.lookup fs (root self)); [|done].
  apply iter_paths_quiet.
Qed.


Lemma flat_map_option_list {A B} (f : A -> option B) (l : list A) :
  flat_map (fun x => option_list (f x)) l = omap f l.
Proof.
  induction l as [|x l IH]; [done|]. simpl. rewrite IH. by destruct (f x).
Qed.

(** [scan] is a loop over the paths of the traversal, which itself
    never raises. *)
Lemma scan_unfold fs self :
  scan decode_ignore fromtimestamp fs self
  = g_for (yielded (iter_root fs self))
          (scan_body decode_ignore fromtimestamp fs) g_return.
Proof.
  unfold scan, g_for_gen, os_gen. cbn [yielded raised].
  by rewrite iter_root_quiet.
Qed.

(** When no round raises past the handler, [scan] yields the records
    that could be built, in traversal order, and returns normally. *)
Lemma scan_eq fs self :
  (forall p, p ∈ yielded (iter_root fs self) ->
             escaping decode_ignore fromtimestamp fs p = None) ->
  scan decode_ignore fromtimestamp fs self
  = Gen (omap (record_of decode_ignore fromtimestamp fs)
              (yielded (iter_root fs self))) None.
Proof.
  intros Hq. rewrite scan_unfold.
  rewrite g_for_quiet
    by (intros p Hp; rewrite scan_body_eq; cbn [raised]; by apply Hq).
  cbn [yielded raised g_return]. rewrite app_nil_r.
  f_equal. rewrite <- flat_map_option_list. apply flat_map_ext.
  intros p. by rewrite scan_body_eq.
Qed.

(** At the first path whose record raises past the handler, [scan]
    ends with that exception; the records of the paths before it have
    been yielded. *)
Lemma scan_stops fs self ps1 p ps2 e :
  yielded (iter_root fs self) = (ps1 ++ p :: ps2)%list ->
  (forall q, q ∈ ps1 -> escaping decode_ignore fromtimestamp fs q = None) ->
  escaping decode_ignore fromtimestamp fs p = Some e ->
  scan decode_ignore fromtimestamp fs self
  = Gen (omap (record_of decode_ignore fromtimestamp fs) ps1) (Some e).
Proof.
  intros Hps Hq He. rewrite scan_unfold, Hps.
  rewrite (g_for_stops ps1 ps2 p _ _ e).
  - f_equal. rewrite scan_body_eq. cbn [yielded].
    unfold record_of, escaping in *.
    destruct (path_to_metadata _ _ _ p) as [m|e']; [done|].
    cbn [option_list]. rewrite app_nil_r.
    rewrite <- flat_map_option_list. apply flat_map_ext.
    intros q. by rewrite scan_body_eq.
  - intros q Hin. rewrite scan_body_eq. cbn [raised]. by apply Hq.
  - by rewrite scan_body_eq.
Qed.

Lemma scan_yielded_inv fs self m :
  m ∈ yielded (scan decode_ignore fromtimestamp fs self) ->
  exists p,
    p ∈ yielded (iter_root fs self)
    /\ path_to_metadata decode_ignore fromtimestamp (FS.observe fs p) p = Ok m.
Proof.
  rewrite scan_unfold.
  intros [(p & Hp & Hm)|Hm]%g_for_yielded_inv;
    [|by apply elem_of_nil in Hm].
  exists p. split; [done|]. rewrite scan_body_eq in Hm. cbn [yielded] in Hm.
  unfold record_of in Hm.
  destruct (path_to_metadata decode_ignore fromtimestamp (FS.observe fs p) p);
    [|by apply elem_of_nil in Hm].
  cbn [option_list] in Hm. apply list_elem_of_singleton in Hm. by subst.
Qed.

(** A scan that returns normally met no exception past the handler. *)
Lemma scan_quiet_inv fs self p :
  raised (scan decode_ignore fromtimestamp fs self) = None ->
  p ∈ yielded (iter_root fs self) ->
  escaping decode_ignore fromtimestamp fs p = None.
Proof.
  rewrite scan_unfold. intros Hr Hp.
  apply (g_for_quiet_inv _ _ _ Hr) in Hp. by rewrite scan_body_eq in Hp.
Qed.


End ScanFacts.

(** ** Extensions *)

Section Extension.
Import Scanner.

Lemma suffix_spec (p : Path) :
  (exists stem e,
     has_extension (PurePath.name p) stem e
     /\ PurePath.suffix p = String "."%char e)
  \/ ((forall stem e, ~ has_extension (PurePath.name p) stem e)
      /\ PurePath.suffix p = "").
Proof.
  unfold PurePath.suffix. set (nm := PurePath.name p). unfold Py.rfind.
  destruct (rfind_from_spec "."%char nm 0 (-1))
    as [[Hno ->]|(pre & post & Hnm & Hpost & ->)].
  - right. split; [|done]. intros stem e (Heq & _ & _ & _).
    rewrite Heq, all_chars_append in Hno. simpl in Hno.
    by rewrite andb_false_r in Hno.
  - destruct ((0 <? 0 + Py.len pre) && (0 + Py.len pre <? Py.len nm - 1)) eqn:Hc.
    + left. exists pre, post. apply andb_true_iff in Hc as [H1 H2].
      apply Z.ltb_lt in H1, H2. rewrite Hnm in H2. unfold Py.len in *.
      rewrite length_append in H2. simpl String.length in H2.
      split.
      * split_and!; [done| | |done].
        -- intros ->. simpl in H1. lia.
        -- intros ->. simpl in H2. lia.
      * unfold Py.slice_from. rewrite Hnm.
        replace (Z.to_nat (0 + Z.of_nat (String.length pre)))
          with (String.length pre) by lia.
        apply drop_append.
    + right. split; [|done]. intros stem e (Heq & Hs & He & Hd).
      rewrite Hnm in Heq.
      destruct (last_dot_unique _ _ _ _ Heq Hpost Hd) as [-> ->].
      apply andb_false_iff in Hc. rewrite Hnm in Hc. unfold Py.len in Hc.
      rewrite length_append in Hc. simpl String.length in Hc.
      rewrite !Z.ltb_ge in Hc.
      destruct stem; [done|]. destruct e; [done|]. simpl in Hc. lia.
Qed.

Lemma ext_of_spec (p : Path) :
  (exists stem e,
     has_extension (PurePath.name p) stem e /\ ext_of p = Py.lower e)
  \/ ((forall stem e, ~ has_extension (PurePath.name p) stem e)
      /\ ext_of p = "").
Proof.
  unfold ext_of.
  destruct (suffix_spec p) as [(stem & e & Hext & ->)|[Hno ->]].
  - left. by exists stem, e.
  - by right.
Qed.

Lemma has_extension_unique name stem e stem' e' :
  has_extension name stem e -> has_extension name stem' e' ->
  stem = stem' /\ e = e'.
Proof.
  intros (-> & _ & _ & Hd) (Heq & _ & _ & Hd').
  by apply last_dot_unique.
Qed.

Lemma startswith_dot s :
  all_chars not_dot s = true -> Py.startswith s "." = false.
Proof.
  destruct s as [|c s]; [done|]. cbn [all_chars].
  intros [Hc _]%andb_true_iff.
  unfold not_dot in Hc. apply negb_true_iff in Hc.
  cbn [Py.startswith]. rewrite Ascii.eqb_sym, Hc. done.
Qed.

End Extension.

(* ===================================================================== *)
(** * The scanner's claims *)
(* ===================================================================== *)

Section ScannerClaims.
Import Scanner.

Lemma bytes_contains_spec (b : byte) (chunk : list byte) :
  Py.bytes_contains b chunk = true <-> b ∈ chunk.
Proof.
  unfold Py.bytes_contains. rewrite existsb_exists. split.
  - intros (x & Hx & Heq). apply byte_dec_bl in Heq as ->.
    by apply list_elem_of_In.
  - intros Hb. exists b. split; [by apply list_elem_of_In|].
    by apply byte_dec_lb.
Qed.






(** C5. The classification reads at most 1024 bytes from the start of
    the file and never raises; it is [false] exactly when the probe read
    failed or a NUL byte is among those bytes, [true] otherwise, whatever
    the decoder returns; it is the record's [is_text]; and it never keeps
    a record from being built: one is built whenever [stat] succeeds and
    both timestamps convert, and when none is built the exception is
    that of [stat] or of a conversion. *)
Theorem text_classification decode_ignore fromtimestamp (f : FileObs) :
  exists b : bool,
    _looks_like_text decode_ignore f 1024 = Ok b
    /\ (b = false
        <-> (exists e, open_rb f = Raise e)
            \/ (exists content,
                  open_rb f = Ok content /\ x00 ∈ firstn 1024 content))
    /\ (b = true
        <-> exists content,
              open_rb f = Ok content /\ x00 ∉ firstn 1024 content)
    /\ (forall p m, path_to_metadata decode_ignore fromtimestamp f p = Ok m -> is_text m = b)
    /\ (forall p st c mo,
          os_stat f = Ok st ->
          fromtimestamp (st_ctime st) = Ok c ->
          fromtimestamp (st_mtime st) = Ok mo ->
          exists m, path_to_metadata decode_ignore fromtimestamp f p = Ok m)
    /\ (forall p e,
          path_to_metadata decode_ignore fromtimestamp f p = Raise e ->
          (exists e', os_stat f = Raise e' /\ e = OS e')
          \/ (exists st,
                os_stat f = Ok st
                /\ (fromtimestamp (st_ctime st) = Raise e
                    \/ fromtimestamp (st_mtime st) = Raise e))).
Proof.
  exists (is_text_of f 1024). split_and!.
  - apply looks_like_text_total.
  - unfold is_text_of. destruct (open_rb f) as [content|e].
    + rewrite negb_false_iff, bytes_contains_spec. split.
      * intros H. right. by exists content.
      * intros [[e [=]]|(c & [= <-] & H)]. done.
    + split; [|done]. intros _. left. by exists e.
  - unfold is_text_of. destruct (open_rb f) as [content|e].
    + rewrite negb_true_iff, <- not_true_iff_false, bytes_contains_spec. split.
      * intros H. by exists content.
      * intros (c & [= <-] & H). done.
    + split; [done|]. by intros (c & [=] & _).
  - intros p m (st & _ & _ & _ & _ & _ & Ht & _)%path_to_metadata_inv. done.
  - intros p st c mo Hst Hc Hm. rewrite path_to_metadata_eq, Hst, Hc, Hm. eauto.
  - intros p e. rewrite path_to_metadata_eq.
    destruct (os_stat f) as [st|e0].
    + destruct (fromtimestamp (st_ctime st)) as [c|e1] eqn:Hc.
      * destruct (fromtimestamp (st_mtime st)) as [mo|e2] eqn:Hm; [done|].
        intros [= ->]. right. exists st. split; [done|by right].
      * intros [= ->]. right. exists st. split; [done|by left].
    + intros [= <-]. left. by exists e0.
Qed.

Lemma text_classification_witness :
  is_text Demo.image_meta = false /\ is_text Demo.notes_meta = true.
Proof.
  destruct (text_classification Demo.ascii_codec Demo.utc_fromtimestamp
              (Demo.plain 3 [x68; x00; x69] "h"))
    as (b & Hb & _ & _ & Hrec & _).
  destruct (text_classification Demo.ascii_codec Demo.utc_fromtimestamp
              (Demo.plain 11 Demo.hello_bytes "hello world"))
    as (b' & Hb' & _ & _ & Hrec' & _).
  split.
  - rewrite (Hrec ["home"; "image.bin"] Demo.image_meta) by reflexivity.
    vm_compute in Hb. congruence.
  - rewrite (Hrec' ["home"; "notes.txt"] Demo.notes_meta) by reflexivity.
    vm_compute in Hb'. congruence.
Defined.

End ScannerClaims.

Section RecordClaims.
Import Scanner.

(** C9. The extension of a yielded record is lowercase and does not
    begin with a dot (it holds no dot at all); when the name is [stem.e],
    with text on both sides of its last dot, the extension is [e] in
    lowercase, and when the name has no such extension it is empty. *)
Theorem extension_is_lowercase_suffix decode_ignore fromtimestamp fs self m :
  m ∈ yielded (scan decode_ignore fromtimestamp fs self) ->
  Py.lower (extension m) = extension m
  /\ all_chars not_upper (extension m) = true
  /\ Py.startswith (extension m) "." = false
  /\ all_chars not_dot (extension m) = true
  /\ (forall stem e, has_extension (name m) stem e -> extension m = Py.lower e)
  /\ ((forall stem e, ~ has_extension (name m) stem e) -> extension m = "").
Proof.
  intros (p & _ & Hm)%scan_yielded_inv.
  apply path_to_metadata_inv in Hm as (st & _ & -> & _ & -> & _).
  destruct (ext_of_spec p) as [(stem & e & Hext & ->)|[Hno ->]].
  - assert (all_chars not_dot (Py.lower e) = true) as Hdot.
    { rewrite lower_not_dot. by destruct Hext as (_ & _ & _ & ?). }
    split_and!.
    + apply lower_idem.
    + apply lower_not_upper.
    + by apply startswith_dot.
    + done.
    + intros stem' e' Hext'.
      by destruct (has_extension_unique _ _ _ _ _ Hext Hext') as [_ ->].
    + intros Hno. by destruct (Hno stem e).
  - split_and!; try done. intros stem e Hext. by destruct (Hno stem e).
Qed.

Lemma extension_is_lowercase_suffix_witness :
  Py.lower "txt" = "txt"
  /\ all_chars not_upper "txt" = true
  /\ Py.startswith "txt" "." = false
  /\ all_chars not_dot "txt" = true
  /\ (forall stem e, has_extension "notes.txt" stem e -> "txt" = Py.lower e)
  /\ ((forall stem e, ~ has_extension "notes.txt" stem e) -> "txt" = "").
Proof.
  apply (extension_is_lowercase_suffix
           Demo.ascii_codec Demo.utc_fromtimestamp Demo.demo_fs Demo.demo_scanner Demo.notes_meta).
  vm_compute. left.
Defined.

(** C2, as the code has it.  The preview of a yielded record is present
    exactly when [is_text] holds, the size is at most 1,000,000 and the
    preview read did not fail.  When present it is made of the first
    characters of the file, at most 500 of them, with every whitespace
    run collapsed to one space and the ends trimmed: it has no two
    neighbouring whitespace characters, no whitespace at either end, and
    is no longer than what was read. *)
Theorem preview_presence decode_ignore fromtimestamp fs self m :
  m ∈ yielded (scan decode_ignore fromtimestamp fs self) ->
  exists p : Path,
    p ∈ yielded (iter_root fs self)
    /\ path m = PurePath.to_str p
    /\ (is_Some (preview m)
        <-> is_text m = true
            /\ size_bytes m <= 1000000
            /\ exists stream, open_text (FS.observe fs p) = Ok stream)
    /\ (forall pv, preview m = Some pv ->
          exists stream text,
            open_text (FS.observe fs p) = Ok stream
            /\ text = Py.take 500 stream
            /\ is_prefix text stream
            /\ (String.length text <= 500)%nat
            /\ pv = Py.join " " (Py.split text)
            /\ no_double_space pv = true
            /\ starts_with_space pv = false
            /\ ends_with_space pv = false
            /\ (String.length pv <= String.length text)%nat).
Proof.
  intros (p & Hp & Hm)%scan_yielded_inv. exists p.
  apply path_to_metadata_inv in Hm as (st & _ & _ & Hpath & _ & _ & _ & Hpv).
  split_and!; [done..| |].
  - rewrite Hpv. unfold preview_of, SMALL_PREVIEW_LIMIT.
    destruct (is_text m); cbn [andb].
    + destruct (size_bytes m <=? 1000000) eqn:Hsz.
      * apply Z.leb_le in Hsz.
        destruct (open_text (FS.observe fs p)) as [stream|e].
        -- split; [|by eexists]. intros _. split_and!; [done..|]. by exists stream.
        -- split; [by intros [? [=]]|]. by intros (_ & _ & ? & [=]).
      * apply Z.leb_gt in Hsz. split; [by intros [? [=]]|]. lia.
    + split; [by intros [? [=]]|]. by intros ([=] & _).
  - intros pv Hsome. rewrite Hpv in Hsome. unfold preview_of in Hsome.
    destruct (is_text m && (size_bytes m <=? SMALL_PREVIEW_LIMIT)); [|done].
    destruct (open_text (FS.observe fs p)) as [stream|e]; [|done].
    injection Hsome as <-. exists stream, (Py.take 500 stream).
    destruct (collapse_facts (Py.take 500 stream)) as (H1 & H2 & H3 & H4).
    split_and!; try done.
    + apply take_prefix.
    + apply take_length.
Qed.

Lemma preview_presence_witness :
  exists p : Path,
    p ∈ yielded (iter_root Demo.demo_fs Demo.demo_scanner)
    /\ path Demo.notes_meta = PurePath.to_str p
    /\ (is_Some (preview Demo.notes_meta)
        <-> is_text Demo.notes_meta = true
            /\ size_bytes Demo.notes_meta <= 1000000
            /\ exists stream, open_text (FS.observe Demo.demo_fs p) = Ok stream)
    /\ (forall pv, preview Demo.notes_meta = Some pv ->
          exists stream text,
            open_text (FS.observe Demo.demo_fs p) = Ok stream
            /\ text = Py.take 500 stream
            /\ is_prefix text stream
            /\ (String.length text <= 500)%nat
            /\ pv = Py.join " " (Py.split text)
            /\ no_double_space pv = true
            /\ starts_with_space pv = false
            /\ ends_with_space pv = false
            /\ (String.length pv <= String.length text)%nat).
Proof.
  apply (preview_presence Demo.ascii_codec Demo.utc_fromtimestamp Demo.demo_fs Demo.demo_scanner).
  vm_compute. left.
Defined.

(** C2 as stated fails: a file that was probed as text and is small,
    but whose second opening is refused, gets a record without a
    preview. *)
Lemma preview_iff_counterexample :
  ~ (forall decode_ignore fromtimestamp fs self m,
       m ∈ yielded (scan decode_ignore fromtimestamp fs self) ->
       (is_Some (preview m)
        <-> is_text m = true /\ size_bytes m <= 1000000)).
Proof.
  intros Hclaim.
  assert (Demo.refused_meta
            ∈ yielded (scan Demo.ascii_codec Demo.utc_fromtimestamp Demo.refused_fs Demo.demo_scanner))
    as Hin by (vm_compute; left).
  apply Hclaim in Hin. destruct Hin as [_ Hback].
  destruct Hback as [pv Hpv]; [|discriminate Hpv].
  split; [reflexivity|]. vm_compute. discriminate.
Qed.

End RecordClaims.

(* ===================================================================== *)
(** * The record transforms *)
(* ===================================================================== *)

(** ** Sorting *)

Section SortFacts.
Context {A K : Type} `{StrictWeak K}.
Variable key : A -> K.

Lemma insert_by_perm x s : insert_by key x s ≡ₚ x :: s.
Proof.
  induction s as [|y s IH]; [done|]. simpl.
  destruct (py_lt (key y) (key x)); [|done].
  rewrite IH. apply Permutation_swap.
Qed.

Lemma stable_sort_perm l : stable_sort key l ≡ₚ l.
Proof.
  induction l as [|x l IH]; [done|]. simpl.
  by rewrite insert_by_perm, IH.
Qed.

Lemma insert_by_ascending x s :
  StronglySorted (ascending key) s -> StronglySorted (ascending key) (insert_by key x s).
Proof.
  induction 1 as [|y s Hs IH Hy]; simpl.
  - repeat constructor.
  - destruct (py_lt (key y) (key x)) eqn:Hlt.
    + constructor; [done|].
      rewrite Forall_forall. intros z Hz.
      rewrite (insert_by_perm x s) in Hz. unfold ascending.
      apply elem_of_cons in Hz as [->|Hz]; [by apply lt_asym|].
      rewrite Forall_forall in Hy. by apply (Hy z).
    + constructor; [by constructor|]. constructor; [done|].
      rewrite Forall_forall in Hy |- *. intros z Hz. unfold ascending.
      apply (lt_negtrans _ (key y)); [by apply (Hy z)|done].
Qed.

Lemma stable_sort_ascending l : StronglySorted (ascending key) (stable_sort key l).
Proof.
  induction l as [|x l IH]; simpl; [constructor|]. by apply insert_by_ascending.
Qed.

(** Inserting an element leaves the elements of every other key class
    alone, and puts it in front of its own class. *)
Lemma insert_by_filter k x s :
  filter (fun a => same_key (key a) k = true) (insert_by key x s)
  = filter (fun a => same_key (key a) k = true) (x :: s).
Proof.
  induction s as [|y s IH]; [done|]. simpl.
  destruct (py_lt (key y) (key x)) eqn:Hlt; [|done].
  rewrite (filter_cons _ y), IH, !filter_cons.
  destruct (decide (same_key (key x) k = true)) as [Hx|Hx]; [|done].
  destruct (decide (same_key (key y) k = true)) as [Hy|Hy]; [|done].
  exfalso. unfold same_key in Hx, Hy.
  apply andb_true_iff in Hx as [_ Hkx]. apply andb_true_iff in Hy as [Hyk _].
  apply negb_true_iff in Hkx, Hyk.
  pose proof (lt_negtrans _ _ _ Hyk Hkx). congruence.
Qed.

Lemma stable_sort_filter k l :
  filter (fun a => same_key (key a) k = true) (stable_sort key l)
  = filter (fun a => same_key (key a) k = true) l.
Proof.
  induction l as [|x l IH]; [done|]. simpl.
  by rewrite insert_by_filter, !filter_cons, IH.
Qed.

Lemma StronglySorted_reverse (R : A -> A -> Prop) l :
  StronglySorted R l -> StronglySorted (fun a b => R b a) (reverse l).
Proof.
  induction 1 as [|x l Hl IH Hx]; [constructor|].
  rewrite reverse_cons.
  assert (forall l', StronglySorted (fun a b => R b a) l' ->
                     Forall (fun a => R x a) l' ->
                     StronglySorted (fun a b => R b a) (l' ++ [x])) as Hsnoc.
  { induction 1 as [|y l' Hl' IH' Hy]; intros Hall.
    - repeat constructor.
    - simpl. apply Forall_cons in Hall as [Hxy Hall]. constructor; [by apply IH'|].
      apply Forall_app. split; [done|]. by repeat constructor. }
  apply Hsnoc; [done|]. by apply Forall_reverse.
Qed.

(** [sorted] returns a rearrangement of its input, ordered by key in the
    direction asked for, in which the records of equal key stand as they
    stood in the input. *)
Lemma sorted_perm l (rv : bool) : sorted key l rv ≡ₚ l.
Proof.
  unfold sorted. destruct rv; [|apply stable_sort_perm].
  by rewrite reverse_Permutation, stable_sort_perm, reverse_Permutation.
Qed.

Lemma sorted_ordered l (rv : bool) :
  StronglySorted (if rv then descending key else ascending key)
                 (sorted key l rv).
Proof.
  unfold sorted. destruct rv; [|apply stable_sort_ascending].
  apply (StronglySorted_reverse (ascending key)), stable_sort_ascending.
Qed.

Lemma sorted_stable k l (rv : bool) :
  filter (fun a => same_key (key a) k = true) (sorted key l rv)
  = filter (fun a => same_key (key a) k = true) l.
Proof.
  unfold sorted. destruct rv; [|apply stable_sort_filter].
  by rewrite filter_reverse, stable_sort_filter, filter_reverse, reverse_involutive.
Qed.

End SortFacts.

(** ** Counting *)

Section CountFacts.

Lemma elem_of_first_seen k ks : k ∈ first_seen ks <-> k ∈ ks.
Proof.
  induction ks as [|x ks IH]; [done|]. simpl.
  rewrite !elem_of_cons, list_elem_of_filter, IH.
  destruct (decide (k = x)); (intuition (subst; eauto; congruence)).
Qed.

Lemma NoDup_first_seen ks : NoDup (first_seen ks).
Proof.
  induction ks as [|x ks IH]; simpl; [constructor|].
  apply NoDup_cons. split; [|by apply NoDup_filter].
  rewrite list_elem_of_filter. (intuition (subst; eauto; congruence)).
Qed.

Lemma first_seen_snoc ks k :
  first_seen (ks ++ [k])
  = if decide (k ∈ ks) then first_seen ks else (first_seen ks ++ [k])%list.
Proof.
  induction ks as [|x ks IH]; [done|].
  change ((x :: ks) ++ [k])%list with (x :: (ks ++ [k]))%list.
  cbn [first_seen]. rewrite IH.
  destruct (decide (k ∈ ks)) as [Hin|Hnin].
  - rewrite decide_True by (by apply list_elem_of_further). done.
  - rewrite filter_app, filter_cons, filter_nil.
    destruct (decide (k <> x)) as [Hne|Heq].
    + rewrite decide_False; [done|].
      intros [?|?]%elem_of_cons; [by apply Hne|by apply Hnin].
    + assert (k = x) as -> by (by destruct (decide (k = x))).
      rewrite decide_True by apply list_elem_of_here. by rewrite app_nil_r.
Qed.

Lemma occurrences_snoc k ks x :
  occurrences k (ks ++ [x]) = occurrences k ks + (if decide (x = k) then 1 else 0).
Proof.
  unfold occurrences. rewrite filter_app, length_app, filter_cons, filter_nil.
  destruct (decide (x = k)); simpl; lia.
Qed.

Lemma occurrences_nonneg k ks : 0 <= occurrences k ks.
Proof. unfold occurrences. lia. Qed.

Lemma occurrences_pos k ks : 0 < occurrences k ks <-> k ∈ ks.
Proof.
  unfold occurrences. induction ks as [|x ks IH]; simpl.
  - split; [lia|]. by intros ?%elem_of_nil.
  - rewrite filter_cons, elem_of_cons.
    destruct (decide (x = k)) as [->|Hne]; simpl.
    + split; [by left|lia].
    + rewrite IH. (intuition (subst; eauto; congruence)).
Qed.

Lemma occurrences_absent k ks : k ∉ ks -> occurrences k ks = 0.
Proof.
  intros Hk. pose proof (occurrences_nonneg k ks).
  pose proof (occurrences_pos k ks). 
  destruct (decide (0 < occurrences k ks)); [(intuition (subst; eauto; congruence))|lia].
Qed.

Lemma dict_get_map (c : string -> Z) k l :
  dict_get k (map (fun x => (x, c x)) l)
  = if decide (k ∈ l) then Some (c k) else None.
Proof.
  induction l as [|x l IH]; [done|]. simpl.
  destruct (String.eqb_spec k x) as [->|Hne].
  - by rewrite decide_True by apply list_elem_of_here.
  - rewrite IH. destruct (decide (k ∈ l)).
    + by rewrite decide_True by (by apply list_elem_of_further).
    + rewrite decide_False; [done|]. rewrite elem_of_cons. (intuition (subst; eauto; congruence)).
Qed.

Lemma dict_set_map (c c' : string -> Z) k v l :
  NoDup l -> c' k = v -> (forall x, x <> k -> c' x = c x) ->
  dict_set k v (map (fun x => (x, c x)) l)
  = map (fun x => (x, c' x)) (if decide (k ∈ l) then l else (l ++ [k])%list).
Proof.
  intros Hnd Hk Hother. induction Hnd as [|x l Hx Hnd IH].
  - simpl. by rewrite Hk.
  - simpl. destruct (String.eqb_spec k x) as [->|Hne].
    + rewrite decide_True by apply list_elem_of_here. simpl. rewrite Hk. f_equal.
      apply map_ext_in. intros y Hy. rewrite Hother; [done|].
      intros ->. by apply Hx, list_elem_of_In.
    + rewrite IH. destruct (decide (k ∈ l)).
      * rewrite decide_True by (by apply list_elem_of_further).
        simpl. by rewrite Hother.
      * rewrite decide_False.
        -- simpl. by rewrite Hother.
        -- rewrite elem_of_cons. intuition congruence.
Qed.

(** [Counter(ks)] is the tally of [ks]. *)
Lemma Counter_tally ks : Counter ks = tally ks.
Proof.
  unfold Counter.
  enough (forall pre,
            fold_left
              (fun c elem => dict_set elem (default 0 (dict_get elem c) + 1) c)
              ks (tally pre)
            = tally (pre ++ ks)) as Hgen by apply (Hgen []).
  induction ks as [|k ks IH]; intros pre; simpl.
  - by rewrite app_nil_r.
  - replace (pre ++ k :: ks)%list with ((pre ++ [k]) ++ ks)%list
      by (by rewrite <- app_assoc).
    rewrite <- IH. f_equal. unfold tally at 1 2.
    rewrite dict_get_map.
    rewrite (dict_set_map _ (fun x => occurrences x (pre ++ [k])));
      [|apply NoDup_first_seen| |].
    + unfold tally. rewrite first_seen_snoc.
      destruct (decide (k ∈ pre)) as [Hin|Hnin].
      * by rewrite decide_True by (by apply elem_of_first_seen).
      * by rewrite decide_False by (by rewrite elem_of_first_seen).
    + rewrite occurrences_snoc, decide_True by done.
      destruct (decide (k ∈ first_seen pre)) as [Hin|Hnin]; simpl; [done|].
      rewrite elem_of_first_seen in Hnin. by rewrite occurrences_absent.
    + intros x Hx. rewrite occurrences_snoc, decide_False by done. lia.
Qed.

Lemma dict_set_fresh {V} k (v : V) d :
  k ∉ map fst d -> dict_set k v d = (d ++ [(k, v)])%list.
Proof.
  induction d as [|[k' v'] d IH]; [done|]. simpl. intros Hk.
  rewrite not_elem_of_cons in Hk. destruct Hk as [Hne Hk].
  destruct (String.eqb_spec k k'); [done|]. by rewrite IH.
Qed.

(** A list of pairs with distinct keys is its own dictionary. *)
Lemma dict_of_pairs_id {V} (l : list (string * V)) :
  NoDup (map fst l) -> dict_of_pairs l = l.
Proof.
  unfold dict_of_pairs.
  enough (forall acc, NoDup (map fst (acc ++ l)) ->
            fold_left (fun d kv => dict_set kv.1 kv.2 d) l acc
            = (acc ++ l)%list) as Hgen by apply (Hgen []).
  induction l as [|[k v] l IH]; intros acc Hnd; simpl.
  - by rewrite app_nil_r.
  - replace (acc ++ (k, v) :: l)%list with ((acc ++ [(k, v)]) ++ l)%list in *
      by (by rewrite <- app_assoc).
    rewrite dict_set_fresh; [by apply IH|].
    rewrite !map_app in Hnd. apply NoDup_app in Hnd as [Hnd _].
    apply NoDup_app in Hnd as (_ & Hdisj & _). intros Hk.
    apply (Hdisj k Hk). simpl. left.
Qed.

Lemma dict_get_elem {V} k (v : V) d :
  NoDup (map fst d) -> (k, v) ∈ d -> dict_get k d = Some v.
Proof.
  induction d as [|[k' v'] d IH]; simpl; intros Hnd Hin.
  - by apply elem_of_nil in Hin.
  - apply NoDup_cons in Hnd as [Hk' Hnd].
    apply elem_of_cons in Hin as [[= <- <-]|Hin].
    + by rewrite String.eqb_refl.
    + destruct (String.eqb_spec k k') as [->|Hne]; [|by apply IH].
      destruct Hk'. apply list_elem_of_fmap. by exists (k', v).
Qed.

Lemma dict_get_absent {V} k (d : dict V) :
  k ∉ map fst d -> dict_get k d = None.
Proof.
  induction d as [|[k' v'] d IH]; [done|]. simpl. intros Hk.
  rewrite not_elem_of_cons in Hk. destruct Hk as [Hne Hk].
  destruct (String.eqb_spec k k'); [done|]. by apply IH.
Qed.

Lemma tally_keys ks : map fst (tally ks) = first_seen ks.
Proof.
  unfold tally. rewrite map_map. simpl. apply map_id.
Qed.

End CountFacts.

(** ** [count_by_extension] *)

Section CountByExtension.
Import Scanner Utils.

Lemma same_key_Z (a b : Z) : same_key a b = true <-> a = b.
Proof.
  unfold same_key, py_lt, Z_PyLt.
  rewrite andb_true_iff, !negb_true_iff, !Z.ltb_ge. lia.
Qed.

Lemma StronglySorted_weaken {A} (R R' : A -> A -> Prop) l :
  (forall a b, R a b -> R' a b) -> StronglySorted R l -> StronglySorted R' l.
Proof.
  intros HR. induction 1 as [|x l Hl IH Hx]; constructor; [done|].
  eapply Forall_impl; [done|]. intros y. apply HR.
Qed.

Lemma most_common_keys (c : dict Z) :
  NoDup (map fst c) -> NoDup (map fst (most_common c)).
Proof.
  intros Hnd. unfold most_common.
  by rewrite (Permutation_map fst (sorted_perm snd c true)).
Qed.

(** The dictionary returned is the tally of the keys
    [m.extension or "-"], sorted by count, largest first. *)
Lemma count_by_extension_eq items :
  count_by_extension items
  = sorted snd (tally (map extension_or_dash items)) true.
Proof.
  unfold count_by_extension. rewrite Counter_tally.
  apply dict_of_pairs_id, most_common_keys.
  rewrite tally_keys. apply NoDup_first_seen.
Qed.

Lemma count_by_extension_get items k :
  dict_get k (count_by_extension items)
  = if decide (k ∈ map extension_or_dash items)
    then Some (occurrences k (map extension_or_dash items))
    else None.
Proof.
  rewrite count_by_extension_eq. set (ks := map extension_or_dash items).
  assert (NoDup (map fst (sorted snd (tally ks) true))) as Hnd.
  { apply (most_common_keys (tally ks)). rewrite tally_keys.
    apply NoDup_first_seen. }
  destruct (decide (k ∈ ks)) as [Hin|Hnin].
  - apply dict_get_elem; [done|]. rewrite sorted_perm. unfold tally.
    apply list_elem_of_fmap. exists k. split; [done|].
    by apply elem_of_first_seen.
  - apply dict_get_absent. intros Hk. apply Hnin.
    rewrite (Permutation_map fst (sorted_perm snd (tally ks) true)) in Hk.
    rewrite tally_keys in Hk. by apply elem_of_first_seen.
Qed.

Lemma extension_or_dash_cases m :
  (extension m = "" /\ extension_or_dash m = "-")
  \/ (extension m <> "" /\ extension_or_dash m = extension m).
Proof.
  unfold extension_or_dash. destruct (extension m); [by left|by right].
Qed.

Lemma occurrences_keys items k :
  occurrences k (map extension_or_dash items)
  = if decide (k = "-") then records_with "" items + records_with "-" items
    else if decide (k = "") then 0
    else records_with k items.
Proof.
  unfold occurrences, records_with.
  induction items as [|m items IH]; simpl.
  - by repeat case_decide.
  - rewrite !filter_cons.
    destruct (extension_or_dash_cases m) as [[He Hd]|[He Hd]];
      repeat case_decide; simpl length; try lia; exfalso; congruence.
Qed.

Lemma filter_tally_keys (f : string -> Z) c l :
  map fst (filter (fun kv => snd kv = c) (map (fun k => (k, f k)) l))
  = filter (fun k => f k = c) l.
Proof.
  induction l as [|k l IH]; [done|]. simpl. rewrite !filter_cons. simpl.
  destruct (decide (f k = c)); simpl; by rewrite IH.
Qed.

End CountByExtension.

(** ** The heap *)

Section HeapFacts.
Context {A : Type}.

Lemma alloc_spec (h : gmap nat (list A)) (v : list A) :
  forall h' r, alloc h v = (h', r) ->
  (r ∉ dom h)
  /\ h' !! r = Some v
  /\ (forall l, l ∈ dom h -> h' !! l = h !! l)
  /\ (dom h ⊆ dom h').
Proof.
  unfold alloc. intros h' r' [= <- <-]. set (r := fresh (dom h)).
  assert (r ∉ dom h) as Hr by apply is_fresh.
  split_and!; [done|by rewrite lookup_insert_eq| |].
  - intros l Hl. rewrite lookup_insert_ne; [done|]. by intros ->.
  - rewrite dom_insert. set_solver.
Qed.

End HeapFacts.

(* ===================================================================== *)
(** * The claims about the record transforms *)
(* ===================================================================== *)

Section UtilsClaims.
Import Scanner Utils.

(** C3, as the code has it.  [count_by_extension] itself puts the
    placeholder: the records without extension are counted under ["-"],
    together with the records whose extension is ["-"], and the empty
    string is never a key.  Every other extension is mapped to the exact
    number of records that bear it, and is a key only when some record
    does. *)
Theorem count_by_extension_counts (items : list FileMeta) :
  dict_get "" (count_by_extension items) = None
  /\ dict_get "-" (count_by_extension items)
     = (let c := records_with "" items + records_with "-" items in
        if decide (0 < c) then Some c else None)
  /\ (forall e, e <> "" -> e <> "-" ->
        dict_get e (count_by_extension items)
        = if decide (0 < records_with e items)
          then Some (records_with e items) else None)
  /\ (forall k,
        dict_get k (count_by_extension items)
        = (let c := occurrences k (map extension_or_dash items) in
           if decide (0 < c) then Some c else None)).
Proof.
  assert (forall k,
            dict_get k (count_by_extension items)
            = (let c := occurrences k (map extension_or_dash items) in
               if decide (0 < c) then Some c else None)) as Hget.
  { intros k. rewrite count_by_extension_get. cbv zeta.
    destruct (decide (k ∈ map extension_or_dash items)) as [Hin|Hnin].
    - by rewrite decide_True by (by apply occurrences_pos).
    - rewrite decide_False; [done|]. by rewrite occurrences_pos. }
  split_and!; [| | |done].
  - rewrite Hget, occurrences_keys. cbv zeta.
    rewrite (decide_False (P := "" = "-")) by done.
    by rewrite (decide_True (P := "" = "")) by done.
  - rewrite Hget, occurrences_keys. cbv zeta.
    by rewrite (decide_True (P := "-" = "-")) by done.
  - intros e He Hd. rewrite Hget, occurrences_keys. cbv zeta.
    rewrite (decide_False (P := e = "-")) by done.
    by rewrite (decide_False (P := e = "")) by done.
Qed.

Lemma count_by_extension_counts_witness :
  dict_get "txt" (count_by_extension
                    [Demo.meta "a.txt" "txt" 1; Demo.meta "README" "" 2;
                     Demo.meta "b.txt" "txt" 3])
  = Some 2.
Proof.
  rewrite (proj1 (proj2 (proj2 (count_by_extension_counts _))) "txt");
    [reflexivity|discriminate|discriminate].
Defined.

(** C3 as stated fails: a record without extension is not counted under
    the empty string. *)
Lemma count_by_extension_empty_key_counterexample :
  ~ (forall items e,
       dict_get e (count_by_extension items)
       = if decide (0 < records_with e items)
         then Some (records_with e items) else None).
Proof.
  intros Hclaim. specialize (Hclaim [Demo.meta "README" "" 2] "").
  vm_compute in Hclaim. discriminate Hclaim.
Qed.

(** C6. [filter_larger_than] keeps, in their order, exactly the records
    of at least [max(0, min_kb) * 1024] bytes: 524288 bytes pass the
    512-kilobyte threshold and 524287 do not, and under a negative
    threshold every record (sizes are not negative) is kept. *)
Theorem filter_larger_than_spec :
  (forall items min_kb m,
     m ∈ filter_larger_than items min_kb
     <-> m ∈ items /\ size_bytes m >= Z.max 0 min_kb * 1024)
  /\ (forall items min_kb, filter_larger_than items min_kb `sublist_of` items)
  /\ (forall m, size_bytes m = 524288 -> filter_larger_than [m] 512 = [m])
  /\ (forall m, size_bytes m = 524287 -> filter_larger_than [m] 512 = [])
  /\ (forall items min_kb,
        min_kb < 0 ->
        Forall (fun m => 0 <= size_bytes m) items ->
        filter_larger_than items min_kb = items).
Proof.
  unfold filter_larger_than. split_and!.
  - intros items min_kb m. rewrite list_elem_of_filter. tauto.
  - intros. apply sublist_filter.
  - intros m Hm. rewrite filter_cons, filter_nil. rewrite decide_True; [done|].
    rewrite Hm. lia.
  - intros m Hm. rewrite filter_cons, filter_nil. rewrite decide_False; [done|].
    rewrite Hm. lia.
  - intros items min_kb Hneg Hall. induction Hall as [|m items Hm _ IH]; [done|].
    rewrite filter_cons, IH. rewrite decide_True; [done|]. lia.
Qed.

Lemma filter_larger_than_spec_witness :
  filter_larger_than [Demo.meta "a" "" 0; Demo.meta "b" "" 524288] (-3)
  = [Demo.meta "a" "" 0; Demo.meta "b" "" 524288]
  /\ filter_larger_than [Demo.meta "b" "" 524288] 512 = [Demo.meta "b" "" 524288]
  /\ filter_larger_than [Demo.meta "c" "" 524287] 512 = [].
Proof.
  destruct filter_larger_than_spec as (_ & _ & Hin & Hout & Hneg).
  split_and!.
  - apply Hneg; [lia|]. repeat constructor; simpl; lia.
  - apply Hin. reflexivity.
  - apply Hout. reflexivity.
Defined.

(** C7. The dictionary lists the keys from the most frequent to the
    least frequent; the keys that share a count stand in the order in
    which they were first met in the input; and for a.txt, b.txt, c.md
    it is txt: 2 followed by md: 1. *)
Theorem count_by_extension_order (items : list FileMeta) :
  StronglySorted (fun a b => snd a >= snd b) (count_by_extension items)
  /\ (forall c,
        map fst (filter (fun kv => snd kv = c) (count_by_extension items))
        = filter (fun k => occurrences k (map extension_or_dash items) = c)
                 (first_seen (map extension_or_dash items)))
  /\ map fst (count_by_extension items)
     ≡ₚ first_seen (map extension_or_dash items)
  /\ count_by_extension
       [Demo.meta "a.txt" "txt" 1; Demo.meta "b.txt" "txt" 2;
        Demo.meta "c.md" "md" 3]
     = [("txt", 2); ("md", 1)].
Proof.
  rewrite count_by_extension_eq. split_and!.
  - eapply StronglySorted_weaken; [|apply (sorted_ordered snd _ true)].
    intros a b. unfold descending, py_lt, Z_PyLt. rewrite Z.ltb_ge. lia.
  - intros c.
    rewrite (list_filter_iff (fun kv : string * Z => snd kv = c)
                             (fun kv => same_key (snd kv) c = true))
      by (intros kv; by rewrite same_key_Z).
    rewrite sorted_stable.
    rewrite (list_filter_iff (fun kv : string * Z => same_key (snd kv) c = true)
                             (fun kv => snd kv = c))
      by (intros kv; by rewrite same_key_Z).
    apply filter_tally_keys.
  - rewrite (Permutation_map fst (sorted_perm snd _ true)).
    by rewrite tally_keys.
  - reflexivity.
Qed.

(** C10. Each of the three filters returns records of its input, in the
    order of the input, none of them twice and none of them changed. *)
Theorem filters_return_subsequences (items : list FileMeta) :
  (forall exts, filter_by_extensions items exts `sublist_of` items)
  /\ (forall min_kb, filter_larger_than items min_kb `sublist_of` items)
  /\ only_text_files items `sublist_of` items.
Proof.
  split_and!; intros; apply sublist_filter.
Qed.

(** C8. [sort_by] returns a new list and leaves every list that existed,
    the one it was handed among them, as it was.  The new list holds the
    records of the input, ordered by key (descending when [reverse] is
    set), and any records of equal key stand in it as they stood in the
    input. *)
Theorem sort_by_is_stable {K : Type} `{StrictWeak K}
        (h : gmap nat (list FileMeta)) (items : nat) (v : list FileMeta)
        (key_func : FileMeta -> K) (reverse : bool) :
  h !! items = Some v ->
  exists h' r out,
    sort_by h items key_func reverse = Some (h', r)
    /\ h' !! r = Some out
    /\ (r ∉ dom h)
    /\ h' !! items = Some v
    /\ (forall l, l ∈ dom h -> h' !! l = h !! l)
    /\ out ≡ₚ v
    /\ StronglySorted
         (fun a b => if reverse then py_lt (key_func a) (key_func b) = false
                     else py_lt (key_func b) (key_func a) = false) out
    /\ (forall k,
          filter (fun m => same_key (key_func m) k = true) out
          = filter (fun m => same_key (key_func m) k = true) v).
Proof.
  intros Hitems. unfold sort_by, list_copy, sorted_new. rewrite Hitems.
  cbn [mbind option_bind].
  destruct (alloc h v) as [h1 tmp] eqn:Ha1.
  apply alloc_spec in Ha1 as (Htmp & Hv & Hold1 & Hdom1).
  cbn [mbind option_bind]. rewrite Hv. cbn [mbind option_bind].
  destruct (alloc h1 (sorted key_func v reverse)) as [h2 r] eqn:Ha2.
  apply alloc_spec in Ha2 as (Hr & Hout & Hold2 & Hdom2).
  assert (items ∈ dom h) as Hin by (apply elem_of_dom; by eexists).
  exists h2, r, (sorted key_func v reverse). split_and!; try done.
  - set_solver.
  - rewrite Hold2, Hold1; [done..|]. set_solver.
  - intros l Hl. rewrite Hold2, Hold1; [done..|]. set_solver.
  - apply sorted_perm.
  - pose proof (sorted_ordered key_func v reverse) as Hs.
    by destruct reverse.
  - intros k. apply sorted_stable.
Qed.

Lemma sort_by_is_stable_witness :
  exists h' r out,
    sort_by {[ 0%nat := [Demo.meta "a" "" 5; Demo.meta "b" "" 1; Demo.meta "c" "" 5] ]}
            0%nat size_bytes true = Some (h', r)
    /\ h' !! r = Some out
    /\ r <> 0%nat
    /\ h' !! 0%nat = Some [Demo.meta "a" "" 5; Demo.meta "b" "" 1; Demo.meta "c" "" 5]
    /\ filter (fun m => same_key (size_bytes m) 5 = true) out
       = [Demo.meta "a" "" 5; Demo.meta "c" "" 5].
Proof.
  destruct (sort_by_is_stable
              {[ 0%nat := [Demo.meta "a" "" 5; Demo.meta "b" "" 1; Demo.meta "c" "" 5] ]}
              0%nat [Demo.meta "a" "" 5; Demo.meta "b" "" 1; Demo.meta "c" "" 5]
              size_bytes true)
    as (h' & r & out & Hrun & Hout & Hfresh & Hsame & _ & _ & _ & Hstable).
  { reflexivity. }
  exists h', r, out. split_and!; [done..| |done|].
  - intros ->. apply Hfresh. vm_compute. reflexivity.
  - rewrite Hstable. reflexivity.
Defined.

End UtilsClaims.

(* ===================================================================== *)
(** * Worked examples *)
(* ===================================================================== *)

Section Examples.
Import Scanner Utils.

Example ext_of_double_suffix : ext_of ["home"; "archive.tar.GZ"] = "gz".
Proof. reflexivity. Qed.

Example ext_of_dot_file : ext_of ["home"; ".bashrc"] = "".
Proof. reflexivity. Qed.

Example ext_of_trailing_dot : ext_of ["home"; "trailing."] = "".
Proof. reflexivity. Qed.

Example ext_of_no_dot : ext_of ["home"; "Makefile"] = "".
Proof. reflexivity. Qed.

(** A scan rooted inside a dot-directory hides every entry. *)
Example hidden_below_dot_directory :
  _is_hidden "app.py" ["home"; ".config"; "app"] = true.
Proof. reflexivity. Qed.

Example not_hidden_elsewhere :
  _is_hidden "app.py" ["home"; "config"; "app"] = false.
Proof. reflexivity. Qed.

(** With hidden entries included the file under [.hidden] is yielded
    too; the unreadable directory still contributes nothing. *)
Example scan_including_hidden :
  map path (yielded (scan Demo.ascii_codec Demo.utc_fromtimestamp Demo.demo_fs Demo.open_scanner))
  = ["/home/notes.txt"; "/home/image.bin"; "/home/.hidden/secret.txt"].
Proof. reflexivity. Qed.

Example filter_by_extensions_normalises :
  map name (filter_by_extensions
              [Demo.meta "c.md" "md" 1; Demo.meta "a.txt" "txt" 1;
               Demo.meta "x" "" 3]
              [".MD"; "pdf"])
  = ["c.md"].
Proof. reflexivity. Qed.

Example count_by_extension_ties :
  count_by_extension
    [Demo.meta "c.md" "md" 1; Demo.meta "a.txt" "txt" 1;
     Demo.meta "b.txt" "txt" 2; Demo.meta "x" "" 3; Demo.meta "z.py" "py" 3]
  = [("txt", 2); ("md", 1); ("-", 1); ("py", 1)].
Proof. reflexivity. Qed.

End Examples.

(* ===================================================================== *)
(** * Further properties of the code *)
(* ===================================================================== *)

(** ** Vocabulary *)

(** [rest] leads from the directory [n] to an entry the scanner takes for
    a file, through entries it takes for directories, under the given
    symlink policy.  A link in the place of [n] stands for its target, as
    it does for [os.scandir]. *)
Inductive leads_to_file (follow : bool) : node -> list string -> Prop :=
| leads_here entries fail c child :
    (c, child) ∈ entries ->
    FS.is_file child follow = Ok true ->
    leads_to_file follow (Directory entries fail) [c]
| leads_down entries fail c child rest :
    (c, child) ∈ entries ->
    FS.is_dir child follow = Ok true ->
    leads_to_file follow child rest ->
    leads_to_file follow (Directory entries fail) (c :: rest)
| leads_through target rest :
    leads_to_file follow target rest ->
    leads_to_file follow (Symlink target) rest.

(** Every listing in the tree names each of its entries once, as a real
    directory does. *)
Fixpoint distinct_names (n : node) : Prop :=
  match n with
  | Directory entries _ =>
      NoDup (map fst entries)
      /\ (fix all (es : list (string * node)) : Prop :=
            match es with
            | [] => True
            | (_, child) :: es' => distinct_names child /\ all es'
            end) entries
  | Symlink target => distinct_names target
  | _ => True
  end.

(** [a] implies [b]. *)
Definition at_most (a b : bool) : Prop := a = true -> b = true.

(** The sum of a list of integers. *)
Definition sum_Z (l : list Z) : Z := foldr Z.add 0 l.

(** ** More sample data *)

Module Sample.
Import Scanner.

(** [/home] with a regular file, a link to a file, a link to a
    directory, a dot-directory and a broken link. *)
Definition linked_fs : node :=
  Directory
    [ ("home",
       Directory
         [ ("real.txt", RegFile (Demo.plain 11 Demo.hello_bytes "hello world"));
           ("link.txt", Symlink (RegFile (Demo.plain 2 [x68; x69] "hi")));
           ("dirlink",
            Symlink (Directory [("in.md", RegFile (Demo.plain 0 [] ""))] None));
           (".git", Directory [("config", RegFile (Demo.plain 1 [x61] "a"))] None);
           ("gone", BrokenLink) ]
         None) ]
    None.

Definition strict_scanner : FileScanner :=
  {| root := ["home"]; include_hidden := false; follow_symlinks := false |}.

Definition lax_scanner : FileScanner :=
  {| root := ["home"]; include_hidden := true; follow_symlinks := true |}.

(** A filesystem whose root path [/notes.txt] is a regular file. *)
Definition file_root_fs : node :=
  Directory [("notes.txt", RegFile (Demo.plain 11 Demo.hello_bytes "hello world"))]
            None.


Definition recs : list FileMeta :=
  [ Demo.meta "a.txt" "txt" 2048; Demo.meta "README" "" 10;
    Demo.meta "b.txt" "txt" 600000; Demo.meta "c.md" "md" 2048 ].

(** A heap with [recs] as its only list, the heap after sorting it by
    size, largest first, and the heap after sorting the result again. *)
Definition heap0 : gmap nat (list FileMeta) := {[ 0%nat := recs ]}.

Definition heap1 : gmap nat (list FileMeta) :=
  Eval vm_compute in
    match Utils.sort_by heap0 0%nat size_bytes true with
    | Some (h, _) => h
    | None => heap0
    end.

Definition sorted1 : nat :=
  Eval vm_compute in
    match Utils.sort_by heap0 0%nat size_bytes true with
    | Some (_, r) => r
    | None => 0%nat
    end.

Definition heap2 : gmap nat (list FileMeta) :=
  Eval vm_compute in
    match Utils.sort_by heap1 sorted1 size_bytes true with
    | Some (h, _) => h
    | None => heap1
    end.

Definition sorted2 : nat :=
  Eval vm_compute in
    match Utils.sort_by heap1 sorted1 size_bytes true with
    | Some (_, r) => r
    | None => 0%nat
    end.

End Sample.

(** ** More on the traversal *)

Section TraversalMore.
Import Scanner.

Lemma sublist_flat_map {A B} (f g : A -> list B) (l : list A) :
  (forall x, x ∈ l -> f x `sublist_of` g x) ->
  flat_map f l `sublist_of` flat_map g l.
Proof.
  induction l as [|x l IH]; intros Hfg; simpl; [done|].
  apply sublist_app.
  - apply Hfg. apply list_elem_of_here.
  - apply IH. intros y Hy. apply Hfg. by apply list_elem_of_further.
Qed.

Lemma sublist_omap {A B} (f : A -> option B) (l1 l2 : list A) :
  l1 `sublist_of` l2 -> omap f l1 `sublist_of` omap f l2.
Proof.
  induction 1 as [|x l1 l2 _ IH|x l1 l2 _ IH]; simpl; [done| |].
  - destruct (f x); [by apply sublist_skip|done].
  - destruct (f x); [by apply sublist_cons|done].
Qed.

Lemma is_dir_plain child :
  FS.is_dir child false = Ok true <-> exists entries fail, child = Directory entries fail.
Proof.
  destruct child; simpl; split; try done; try (by intros (? & ? & [=])).
  intros _. by eexists _, _.
Qed.

Lemma is_file_plain child :
  FS.is_file child false = Ok true <-> exists f, child = RegFile f.
Proof.
  destruct child; simpl; split; try done; try (by intros (? & [=])).
  intros _. by eexists.
Qed.

(** Whatever a walk yields lies below the directory walked and is
    reached as [leads_to_file] says. *)
Lemma iter_paths_leads self n : forall directory q,
  q ∈ yielded (_iter_paths self n directory) ->
  exists rest,
    q = (directory ++ rest)%list
    /\ leads_to_file (follow_symlinks self) n rest.
Proof.
  induction n as [f|entries fail IH|t IH| | |e] using node_tree_ind;
    intros directory q Hq; try (by apply elem_of_nil in Hq).
  - rewrite iter_paths_dir_yielded in Hq.
    apply list_elem_of_In, in_flat_map in Hq as ([ename child] & He & Hq).
    apply list_elem_of_In in He.
    rewrite Forall_forall in IH. specialize (IH _ He). cbn [snd] in IH.
    rewrite entry_paths_yielded in Hq.
    destruct (negb (include_hidden self) && _is_hidden ename directory);
      [done|].
    destruct (FS.is_dir child (follow_symlinks self)) as [[|]|e] eqn:Hdir;
      [| |done].
    + destruct (negb (follow_symlinks self) && FS.islink child); [done|].
      apply list_elem_of_In in Hq.
      apply IH in Hq as (rest & -> & Hrest).
      exists (ename :: rest). split.
      * unfold PurePath.joinpath. by rewrite <- app_assoc.
      * by eapply leads_down.
    + destruct (FS.is_file child (follow_symlinks self)) as [[|]|e] eqn:Hfile;
        try done.
      destruct Hq as [<-|[]]. exists [ename]. split; [done|].
      by eapply leads_here.
  - cbn [_iter_paths] in Hq. apply IH in Hq as (rest & -> & Hrest).
    exists rest. split; [done|]. by constructor.
Qed.

Lemma leads_nonempty follow n rest : leads_to_file follow n rest -> rest <> [].
Proof. induction 1; done. Qed.

(** Relaxing a flag only adds paths. *)
Lemma iter_paths_monotone self1 self2 n :
  at_most (include_hidden self1) (include_hidden self2) ->
  at_most (follow_symlinks self1) (follow_symlinks self2) ->
  forall directory,
    yielded (_iter_paths self1 n directory)
    `sublist_of` yielded (_iter_paths self2 n directory).
Proof.
  intros Hih Hfl.
  induction n as [f|entries fail IH|t IH| | |e] using node_tree_ind;
    intros directory; try done.
  - rewrite !iter_paths_dir_yielded. apply sublist_flat_map.
    intros [ename child] He.
    rewrite Forall_forall in IH. specialize (IH _ He). cbn [snd] in IH.
    rewrite !entry_paths_yielded.
    destruct (negb (include_hidden self1) && _is_hidden ename directory)
      eqn:Hh1; [apply sublist_nil_l|].
    assert (negb (include_hidden self2) && _is_hidden ename directory = false)
      as ->.
    { apply andb_false_iff in Hh1 as [Hh1| ->]; [|by rewrite andb_false_r].
      apply negb_false_iff in Hh1. by rewrite (Hih Hh1). }
    unfold at_most in Hfl.
    destruct (follow_symlinks self1) eqn:Hf1.
    + rewrite (Hfl eq_refl). cbn [negb andb].
      destruct (FS.is_dir child true) as [[|]|e]; [apply IH|done|done].
    + destruct (follow_symlinks self2) eqn:Hf2.
      * destruct child; cbn [FS.is_dir FS.is_file FS.islink negb andb];
          try done; try apply sublist_nil_l; try apply IH.
      * cbn [negb andb].
        destruct (FS.is_dir child false) as [[|]|e]; [|done|done].
        destruct (FS.islink child); [done|apply IH].
  - cbn [_iter_paths]. apply IH.
Qed.

(** The existence test agrees with the traversal's view of a path that
    leads, through directories and links, to a regular file. *)
Lemma stat_at_lookup fs : forall p n,
  FS.lookup fs p = Some n -> FS.stat_at fs p = FS.stat_at n [].
Proof.
  induction fs as [f|entries fail IH|t IH| | |e] using node_tree_ind;
    intros [|c rest] n Hl; cbn [FS.lookup] in Hl; try congruence.
  - cbn [FS.stat_at].
    induction entries as [|[ename child] es IHes]; [done|].
    apply Forall_cons in IH as [IHc IHrest]. cbn [snd] in IHc.
    destruct (String.eqb ename c); [by apply IHc|by apply IHes].
  - cbn [FS.stat_at]. by apply IH.
Qed.

Lemma stat_at_file n f :
  FS.resolve n = Some (RegFile f) -> FS.stat_at n [] = Ok (Some (RegFile f)).
Proof.
  induction n as [g|entries fail _|t IH| | |e] using node_tree_ind;
    cbn [FS.resolve FS.stat_at]; try done; congruence.
Qed.

Lemma exists_file fs p n f :
  FS.lookup fs p = Some n ->
  FS.resolve n = Some (RegFile f) ->
  FS.exists_ fs p = Ok true.
Proof.
  intros Hl Hr. unfold FS.exists_.
  by rewrite (stat_at_lookup _ _ _ Hl), (stat_at_file _ _ Hr).
Qed.

Lemma iter_paths_of_file self n f : forall directory,
  FS.resolve n = Some (RegFile f) ->
  _iter_paths self n directory = Gen [] None.
Proof.
  induction n as [g|entries fail _|t IH| | |e] using node_tree_ind;
    intros directory Hres; try done.
  cbn [_iter_paths]. by apply IH.
Qed.

End TraversalMore.

Section TraversalExtras.
Import Scanner.

(** X1. Every path a walk yields lies strictly below the directory the
    walk started on, and leads from it through entries that test as
    directories to an entry that tests as a file, under the scanner's
    symlink policy. *)
Theorem yielded_paths_lead_to_files self n directory q :
  q ∈ yielded (_iter_paths self n directory) ->
  exists rest,
    rest <> []
    /\ q = (directory ++ rest)%list
    /\ leads_to_file (follow_symlinks self) n rest.
Proof.
  intros (rest & -> & Hrest)%iter_paths_leads. exists rest.
  split_and!; [|done..]. by eapply leads_nonempty.
Qed.

Lemma yielded_paths_lead_to_files_witness :
  exists rest,
    rest <> []
    /\ ["home"; "dirlink"; "in.md"] = (["home"] ++ rest)%list
    /\ leads_to_file true
         (Directory
            [("dirlink",
              Symlink (Directory [("in.md", RegFile (Demo.plain 0 [] ""))] None))]
            None)
         rest.
Proof.
  apply (yielded_paths_lead_to_files Sample.lax_scanner
           (Directory
              [("dirlink",
                Symlink (Directory [("in.md", RegFile (Demo.plain 0 [] ""))] None))]
              None)
           ["home"] ["home"; "dirlink"; "in.md"]).
  vm_compute. left.
Defined.

(** X2. With [follow_symlinks=false] a symbolic link contributes
    nothing, whether it points to a file or to a directory; broken links
    and special files never contribute; and the [islink] guard never
    fires, because no link tests as a directory when links are not
    followed: only real directories and real files do. *)
Theorem symlinks_skipped_unless_followed :
  (forall self directory ename target,
     follow_symlinks self = false ->
     yielded (entry_paths self directory (ename, Symlink target)) = [])
  /\ (forall self directory ename,
        yielded (entry_paths self directory (ename, BrokenLink)) = []
        /\ yielded (entry_paths self directory (ename, Special)) = [])
  /\ (forall child, FS.is_dir child false = Ok true -> FS.islink child = false)
  /\ (forall child,
        FS.is_dir child false = Ok true
        <-> exists entries fail, child = Directory entries fail)
  /\ (forall child,
        FS.is_file child false = Ok true <-> exists f, child = RegFile f).
Proof.
  split_and!.
  - intros self directory ename target Hf. rewrite entry_paths_yielded, Hf.
    cbn [FS.is_dir FS.is_file].
    by destruct (negb (include_hidden self) && _is_hidden ename directory).
  - intros self directory ename. rewrite !entry_paths_yielded.
    cbn [FS.is_dir FS.is_file].
    by destruct (negb (include_hidden self) && _is_hidden ename directory).
  - intros child (entries & fail & ->)%is_dir_plain. done.
  - apply is_dir_plain.
  - apply is_file_plain.
Qed.

Lemma symlinks_skipped_unless_followed_witness :
  yielded (entry_paths Sample.strict_scanner ["home"]
             ("link.txt", Symlink (RegFile (Demo.plain 2 [x68; x69] "hi"))))
  = [].
Proof.
  apply (proj1 symlinks_skipped_unless_followed). reflexivity.
Defined.

(** X3. Switching [include_hidden] or [follow_symlinks] on only adds:
    the paths the stricter scanner finds are, in the same order, among
    those the laxer scanner finds from the same root.  When the laxer
    scan returns normally, so does the stricter one, and its records
    are, in the same order, among the records of the laxer scan. *)
Theorem relaxing_flags_only_adds decode_ignore fromtimestamp fs self1 self2 :
  root self1 = root self2 ->
  at_most (include_hidden self1) (include_hidden self2) ->
  at_most (follow_symlinks self1) (follow_symlinks self2) ->
  yielded (iter_root fs self1) `sublist_of` yielded (iter_root fs self2)
  /\ (raised (scan decode_ignore fromtimestamp fs self2) = None ->
      raised (scan decode_ignore fromtimestamp fs self1) = None
      /\ yielded (scan decode_ignore fromtimestamp fs self1)
         `sublist_of` yielded (scan decode_ignore fromtimestamp fs self2)).
Proof.
  intros Hroot Hih Hfl.
  assert (yielded (iter_root fs self1) `sublist_of` yielded (iter_root fs self2))
    as Hpaths.
  { unfold iter_root. rewrite Hroot.
    destruct (FS.lookup fs (root self2)); [|done].
    by apply iter_paths_monotone. }
  split; [done|]. intros Hquiet.
  assert (forall p, p ∈ yielded (iter_root fs self2) ->
                    escaping decode_ignore fromtimestamp fs p = None) as H2
    by (intros p; by apply scan_quiet_inv).
  assert (forall p, p ∈ yielded (iter_root fs self1) ->
                    escaping decode_ignore fromtimestamp fs p = None) as H1.
  { intros p Hp. apply H2. by eapply elem_of_sublist. }
  rewrite (scan_eq _ _ _ self1 H1), (scan_eq _ _ _ self2 H2).
  cbn [yielded raised]. split; [done|]. by apply sublist_omap.
Qed.

Lemma relaxing_flags_only_adds_witness :
  yielded (scan Demo.ascii_codec Demo.utc_fromtimestamp
                Sample.linked_fs Sample.strict_scanner)
  `sublist_of` yielded (scan Demo.ascii_codec Demo.utc_fromtimestamp
                             Sample.linked_fs Sample.lax_scanner).
Proof.
  apply (relaxing_flags_only_adds Demo.ascii_codec Demo.utc_fromtimestamp
           Sample.linked_fs Sample.strict_scanner Sample.lax_scanner);
    [reflexivity|intros [=]|intros [=]|reflexivity].
Defined.

(** X4. When the root is a regular file, not a directory, the scanner
    is constructed and its scan yields nothing, without raising. *)
Theorem scan_of_a_file_root decode_ignore fromtimestamp fs root n f ih fl :
  FS.lookup fs root = Some n ->
  FS.resolve n = Some (RegFile f) ->
  __init__ fs (Ok root) ih fl
  = Ok {| root := root; include_hidden := ih; follow_symlinks := fl |}
  /\ scan decode_ignore fromtimestamp fs
          {| root := root; include_hidden := ih; follow_symlinks := fl |}
     = Gen [] None.
Proof.
  intros Hlook Hres.
  assert (yielded (iter_root fs {| root := root; include_hidden := ih;
                                   follow_symlinks := fl |}) = []) as Hnone.
  { unfold iter_root. cbn [Scanner.root]. rewrite Hlook.
    by rewrite (iter_paths_of_file _ n f). }
  split.
  - unfold __init__. cbn [mbind result_mbind bind].
    by rewrite (exists_file _ _ _ _ Hlook Hres).
  - rewrite scan_eq; rewrite Hnone; [done|].
    intros p Hp. by apply elem_of_nil in Hp.
Qed.

Lemma scan_of_a_file_root_witness :
  scan Demo.ascii_codec Demo.utc_fromtimestamp Sample.file_root_fs
       {| root := ["notes.txt"]; include_hidden := false; follow_symlinks := false |}
  = Gen [] None.
Proof.
  apply (scan_of_a_file_root Demo.ascii_codec Demo.utc_fromtimestamp Sample.file_root_fs ["notes.txt"]
           (RegFile (Demo.plain 11 Demo.hello_bytes "hello world"))
           (Demo.plain 11 Demo.hello_bytes "hello world") false false);
    reflexivity.
Defined.

(** X5. A directory's paths come out entry by entry, in listing order:
    the output for a listing is the output for its first part followed
    by the output for the rest, and a listing failure after the entries
    takes nothing away. *)
Theorem paths_follow_listing_order self es1 es2 fail fail1 fail2 directory :
  yielded (_iter_paths self (Directory (es1 ++ es2) fail) directory)
  = (yielded (_iter_paths self (Directory es1 fail1) directory)
     ++ yielded (_iter_paths self (Directory es2 fail2) directory))%list.
Proof.
  rewrite !iter_paths_dir_yielded. apply flat_map_app.
Qed.

End TraversalExtras.

(** ** More on classification and previews *)

Section TextExtras.
Import Scanner.

Lemma str_app_assoc (a b c : string) :
  String.append (String.append a b) c = String.append a (String.append b c).
Proof. induction a as [|x a IH]; simpl; [done|]. by rewrite IH. Qed.

Lemma str_app_empty_r (a : string) : String.append a "" = a.
Proof. induction a as [|x a IH]; simpl; [done|]. by rewrite IH. Qed.

(** Reading on through a whitespace-free text only extends the word
    being read. *)
Lemma split_from_nospace w : forall cur s,
  all_chars not_space w = true ->
  Py.split_from cur (String.append w s)
  = Py.split_from (String.append cur w) s.
Proof.
  induction w as [|a w IH]; intros cur s Hw.
  - by rewrite str_app_empty_r.
  - cbn [all_chars] in Hw. apply andb_true_iff in Hw as [Ha Hw].
    unfold not_space in Ha. apply negb_true_iff in Ha.
    change (String.append (String a w) s) with (String a (String.append w s)).
    cbn [Py.split_from]. rewrite Ha, IH by done.
    f_equal. by rewrite str_app_assoc.
Qed.

(** Splitting what [join] made of words gives the words back. *)
Lemma split_join_words ws :
  Forall (fun w => is_word w = true) ws -> Py.split (Py.join " " ws) = ws.
Proof.
  unfold Py.split, Py.join. induction 1 as [|w ws Hw Hws IH]; [done|].
  rewrite concat_cons. unfold is_word in Hw.
  apply andb_true_iff in Hw as [Hne Hns].
  destruct ws as [|w' ws'].
  - rewrite <- (str_app_empty_r w) at 1. rewrite split_from_nospace by done.
    simpl. by rewrite Hne.
  - rewrite split_from_nospace by done. cbn [String.append Py.split_from].
    change (Py.isspace " ") with true. cbv iota. rewrite Hne.
    by rewrite IH.
Qed.

(** X6. The probe sees the first 1024 bytes only: a file whose first
    1024 bytes hold no NUL is text, whatever follows; an empty file is
    text, and its record carries the empty preview. *)
Theorem probe_sees_only_the_first_1024_bytes decode_ignore fromtimestamp :
  (forall f head tail,
     open_rb f = Ok (head ++ tail)%list ->
     length head = 1024%nat ->
     x00 ∉ head ->
     _looks_like_text decode_ignore f 1024 = Ok true)
  /\ (forall f, open_rb f = Ok [] -> _looks_like_text decode_ignore f 1024 = Ok true)
  /\ (forall f p m,
        path_to_metadata decode_ignore fromtimestamp f p = Ok m ->
        open_rb f = Ok [] -> open_text f = Ok "" ->
        size_bytes m <= 1000000 ->
        is_text m = true /\ preview m = Some "").
Proof.
  split_and!.
  - intros f head tail Hrb Hlen Hnul. rewrite looks_like_text_total.
    unfold is_text_of. rewrite Hrb, <- Hlen, take_app_length.
    f_equal. apply negb_true_iff, not_true_iff_false.
    by rewrite bytes_contains_spec.
  - intros f Hrb. rewrite looks_like_text_total. unfold is_text_of.
    by rewrite Hrb.
  - intros f p m (st & _ & _ & _ & _ & _ & Ht & Hpv)%path_to_metadata_inv
           Hrb Htext Hsize.
    assert (is_text m = true) as Htrue
      by (rewrite Ht; unfold is_text_of; by rewrite Hrb).
    split; [done|]. rewrite Hpv, Htrue. unfold preview_of, SMALL_PREVIEW_LIMIT.
    apply Z.leb_le in Hsize. rewrite Hsize, Htext. done.
Qed.

Lemma probe_sees_only_the_first_1024_bytes_witness :
  _looks_like_text Demo.ascii_codec
    (Demo.plain 1025 (repeat x61 1024 ++ [x00]) "a") 1024
  = Ok true.
Proof.
  apply (proj1 (probe_sees_only_the_first_1024_bytes Demo.ascii_codec Demo.utc_fromtimestamp)
           _ (repeat x61 1024) [x00]).
  - reflexivity.
  - apply repeat_length.
  - intros Hin. apply list_elem_of_In, repeat_spec in Hin. discriminate Hin.
Defined.

(** X7. A preview is already in collapsed form: it holds exactly the
    words of the text that was read, and collapsing it again changes
    nothing.  In general, splitting the join of words gives the words
    back. *)
Theorem preview_is_already_collapsed :
  (forall ws,
     Forall (fun w => is_word w = true) ws -> Py.split (Py.join " " ws) = ws)
  /\ (forall f chars pv,
        _safe_read_preview f chars = Ok (Some pv) ->
        exists stream,
          open_text f = Ok stream
          /\ Py.split pv = Py.split (Py.take chars stream)
          /\ Py.join " " (Py.split pv) = pv).
Proof.
  split; [apply split_join_words|].
  intros f chars pv. rewrite safe_read_preview_total.
  destruct (open_text f) as [stream|e]; [|done].
  intros [= <-]. exists stream. split; [done|].
  assert (Py.split (Py.join " " (Py.split (Py.take chars stream)))
          = Py.split (Py.take chars stream)) as Hsplit.
  { apply split_join_words, split_from_words. by left. }
  split; [done|]. by rewrite Hsplit.
Qed.

Lemma preview_is_already_collapsed_witness :
  exists stream,
    open_text (Demo.plain 5 [] "  a   b ") = Ok stream
    /\ Py.split "a b" = Py.split (Py.take 500 stream)
    /\ Py.join " " (Py.split "a b") = "a b".
Proof.
  apply (proj2 preview_is_already_collapsed (Demo.plain 5 [] "  a   b ") 500%nat).
  reflexivity.
Defined.

End TextExtras.

(** ** More on the filters *)

Section FilterExtras.
Import Scanner Utils.

(** The form in which [filter_by_extensions] compares a requested
    extension. *)
Definition normal_ext (e : string) : string := Py.lstrip "."%char (Py.lower e).

Lemma filter_by_extensions_elem items exts m :
  m ∈ filter_by_extensions items exts
  <-> m ∈ items
      /\ exists e, e ∈ exts /\ Py.lower (extension m) = normal_ext e.
Proof.
  unfold filter_by_extensions. rewrite list_elem_of_filter, elem_of_list_to_set.
  rewrite list_elem_of_In, in_map_iff. split.
  - intros [(e & He & Hin) Hm]. split; [done|]. exists e.
    split; [by apply list_elem_of_In|done].
  - intros [Hm (e & Hin & He)]. split; [|done]. exists e.
    split; [done|by apply list_elem_of_In].
Qed.

Lemma filter_ext_by_elem {A} (P Q : A -> Prop)
      `{!forall x, Decision (P x), !forall x, Decision (Q x)} (l : list A) :
  (forall x, x ∈ l -> (P x <-> Q x)) -> filter P l = filter Q l.
Proof.
  induction l as [|x l IH]; intros HPQ; [done|].
  rewrite !filter_cons, IH
    by (intros y Hy; apply HPQ; by apply list_elem_of_further).
  pose proof (HPQ x (list_elem_of_here _ _)) as Hx.
  destruct (decide (P x)), (decide (Q x)); tauto.
Qed.

Lemma filter_by_extensions_requests items exts exts' :
  (forall e, (exists a, a ∈ exts /\ e = normal_ext a)
             <-> (exists a, a ∈ exts' /\ e = normal_ext a)) ->
  filter_by_extensions items exts = filter_by_extensions items exts'.
Proof.
  intros Hsame. unfold filter_by_extensions. apply filter_ext_by_elem.
  intros m _. rewrite !elem_of_list_to_set, !list_elem_of_In, !in_map_iff.
  specialize (Hsame (Py.lower (extension m))).
  split; intros (a & Ha & Hin).
  - destruct (proj1 Hsame) as (b & Hb & Hnb);
      [exists a; split; [by apply list_elem_of_In|done]|].
    exists b. split; [done|by apply list_elem_of_In].
  - destruct (proj2 Hsame) as (b & Hb & Hnb);
      [exists a; split; [by apply list_elem_of_In|done]|].
    exists b. split; [done|by apply list_elem_of_In].
Qed.

Lemma normal_ext_lower e : normal_ext (Py.lower e) = normal_ext e.
Proof. unfold normal_ext. by rewrite lower_idem. Qed.

Lemma normal_ext_dot e : normal_ext (String "."%char e) = normal_ext e.
Proof. done. Qed.

Lemma lower_is_empty s : Py.lower s = "" <-> s = "".
Proof. by destruct s. Qed.

Lemma ext_of_dot_free p : all_chars not_dot (ext_of p) = true.
Proof.
  destruct (ext_of_spec p) as [(stem & e & Hext & ->)|[_ ->]]; [|done].
  rewrite lower_not_dot. by destruct Hext as (_ & _ & _ & ?).
Qed.

Lemma filter_none {A} (P : A -> Prop) `{!forall x, Decision (P x)} (l : list A) :
  (forall x, x ∈ l -> ~ P x) -> filter P l = [].
Proof.
  induction l as [|x l IH]; intros Hno; [done|].
  rewrite filter_cons, decide_False by (apply Hno; apply list_elem_of_here).
  apply IH. intros y Hy. apply Hno. by apply list_elem_of_further.
Qed.

(** X8. [filter_by_extensions] keeps a record exactly when its extension,
    in lowercase, equals some requested extension in lowercase with its
    leading dots removed.  So the case of a request, dots in front of
    it, and the case of the record's extension make no difference, and
    an empty request list selects nothing. *)
Theorem filter_by_extensions_matches_normalised (items : list FileMeta) :
  (forall exts m,
     m ∈ filter_by_extensions items exts
     <-> m ∈ items
         /\ exists e, e ∈ exts
                      /\ Py.lower (extension m) = Py.lstrip "."%char (Py.lower e))
  /\ (forall exts,
        filter_by_extensions items (map Py.lower exts)
        = filter_by_extensions items exts)
  /\ (forall exts,
        filter_by_extensions items (map (String "."%char) exts)
        = filter_by_extensions items exts)
  /\ filter_by_extensions items [] = [].
Proof.
  split_and!.
  - intros exts m. apply filter_by_extensions_elem.
  - intros exts. apply filter_by_extensions_requests. intros e.
    setoid_rewrite list_elem_of_In. setoid_rewrite in_map_iff. split.
    + intros (a & (b & <- & Hb) & ->). exists b. by rewrite normal_ext_lower.
    + intros (a & Ha & ->). exists (Py.lower a).
      rewrite normal_ext_lower. split; [by exists a|done].
  - intros exts. apply filter_by_extensions_requests. intros e.
    setoid_rewrite list_elem_of_In. setoid_rewrite in_map_iff. split.
    + intros (a & (b & <- & Hb) & ->). exists b. by rewrite normal_ext_dot.
    + intros (a & Ha & ->). exists (String "."%char a).
      rewrite normal_ext_dot. split; [by exists a|done].
  - apply filter_none. intros m _. unfold filter_by_extensions.
    cbn [map]. rewrite elem_of_list_to_set. by intros ?%elem_of_nil.
Qed.

(** X9. On scanned records a request whose normal form still holds a
    dot, such as [tar.gz], selects nothing, because a scanned extension
    never holds a dot.  The request [""] or ["."] selects exactly the
    records without extension. *)
Theorem dotted_and_empty_requests :
  (forall decode_ignore fromtimestamp fs self e,
     all_chars not_dot (Py.lstrip "."%char (Py.lower e)) = false ->
     filter_by_extensions (yielded (scan decode_ignore fromtimestamp fs self)) [e] = [])
  /\ (forall items,
        filter_by_extensions items [""] = filter (fun m => extension m = "") items
        /\ filter_by_extensions items ["."]
           = filter (fun m => extension m = "") items).
Proof.
  split.
  - intros decode_ignore fromtimestamp fs self e Hdot. apply filter_none.
    intros m (p & _ & Hm)%scan_yielded_inv.
    apply path_to_metadata_inv in Hm as (st & _ & _ & _ & Hext & _).
    unfold filter_by_extensions. cbn [map].
    rewrite elem_of_list_to_set, list_elem_of_singleton. intros Heq.
    fold (normal_ext e) in Hdot. unfold normal_ext in Hdot.
    rewrite <- Heq, lower_not_dot, Hext, ext_of_dot_free in Hdot. done.
  - intros items. split; unfold filter_by_extensions; apply filter_ext_by_elem;
      intros m _; cbn [map]; rewrite elem_of_list_to_set, list_elem_of_singleton;
      change (Py.lstrip "."%char (Py.lower "")) with "";
      change (Py.lstrip "."%char (Py.lower ".")) with "";
      apply lower_is_empty.
Qed.

Lemma dotted_and_empty_requests_witness :
  filter_by_extensions
    (yielded (scan Demo.ascii_codec Demo.utc_fromtimestamp Demo.demo_fs Demo.demo_scanner)) ["tar.GZ"]
  = [].
Proof.
  apply (proj1 dotted_and_empty_requests). reflexivity.
Defined.

(** X10. The three filters commute with one another and each is
    idempotent: the order in which they are applied does not matter. *)
Theorem filters_commute (items : list FileMeta) (exts : list string) (min_kb : Z) :
  filter_larger_than (only_text_files items) min_kb
  = only_text_files (filter_larger_than items min_kb)
  /\ filter_by_extensions (only_text_files items) exts
     = only_text_files (filter_by_extensions items exts)
  /\ filter_by_extensions (filter_larger_than items min_kb) exts
     = filter_larger_than (filter_by_extensions items exts) min_kb
  /\ only_text_files (only_text_files items) = only_text_files items
  /\ filter_larger_than (filter_larger_than items min_kb) min_kb
     = filter_larger_than items min_kb
  /\ filter_by_extensions (filter_by_extensions items exts) exts
     = filter_by_extensions items exts.
Proof.
  unfold filter_larger_than, only_text_files, filter_by_extensions.
  split_and!; rewrite ?list_filter_filter; apply list_filter_iff; tauto.
Qed.

(** X11. Thresholds compose: filtering by one threshold and then by
    another is filtering by the larger one; a higher threshold keeps a
    subsequence of what a lower one keeps; and every threshold at or
    below zero acts as zero. *)
Theorem thresholds_compose (items : list FileMeta) :
  (forall k1 k2,
     filter_larger_than (filter_larger_than items k1) k2
     = filter_larger_than items (Z.max k1 k2))
  /\ (forall k1 k2,
        k1 <= k2 ->
        filter_larger_than items k2 `sublist_of` filter_larger_than items k1)
  /\ (forall k, k <= 0 -> filter_larger_than items k = filter_larger_than items 0).
Proof.
  assert (forall k1 k2,
            filter_larger_than (filter_larger_than items k1) k2
            = filter_larger_than items (Z.max k1 k2)) as Hcomp.
  { intros k1 k2. unfold filter_larger_than. rewrite list_filter_filter.
    apply list_filter_iff. intros m. lia. }
  split_and!; [done| |].
  - intros k1 k2 Hle. replace k2 with (Z.max k1 k2) by lia.
    rewrite <- Hcomp. apply sublist_filter.
  - intros k Hk. unfold filter_larger_than. apply list_filter_iff.
    intros m. lia.
Qed.

Lemma thresholds_compose_witness :
  filter_larger_than Sample.recs 100 `sublist_of` filter_larger_than Sample.recs 1
  /\ filter_larger_than Sample.recs (-7) = filter_larger_than Sample.recs 0.
Proof.
  destruct (thresholds_compose Sample.recs) as (_ & Hsub & Hneg).
  split; [apply Hsub|apply Hneg]; lia.
Defined.

End FilterExtras.

(** ** More on counting and sorting *)

Section CountExtras.
Import Scanner Utils.

Lemma sum_Z_perm (l1 l2 : list Z) : l1 ≡ₚ l2 -> sum_Z l1 = sum_Z l2.
Proof.
  unfold sum_Z. induction 1; simpl; lia.
Qed.

Lemma sum_Z_plus {A} (f g : A -> Z) (l : list A) :
  sum_Z (map (fun x => f x + g x) l) = sum_Z (map f l) + sum_Z (map g l).
Proof. unfold sum_Z. induction l as [|x l IH]; simpl; lia. Qed.

(** In a list without repetition an element is met once. *)
Lemma sum_Z_indicator (x : string) (l : list string) :
  NoDup l ->
  sum_Z (map (fun k => if decide (x = k) then 1 else 0) l)
  = if decide (x ∈ l) then 1 else 0.
Proof.
  unfold sum_Z. induction 1 as [|y l Hy Hnd IH]; [done|]. simpl. rewrite IH.
  rewrite (decide_ext (x ∈ y :: l) (x = y \/ x ∈ l)) by apply elem_of_cons.
  repeat case_decide; try lia; subst; tauto.
Qed.

Lemma occurrences_cons k x ks :
  occurrences k (x :: ks) = (if decide (x = k) then 1 else 0) + occurrences k ks.
Proof.
  unfold occurrences. rewrite filter_cons.
  destruct (decide (x = k)); simpl length; lia.
Qed.

(** Over any repetition-free list that covers [ks], the occurrences add
    up to the length of [ks]. *)
Lemma sum_occurrences (l ks : list string) :
  NoDup l -> (forall k, k ∈ ks -> k ∈ l) ->
  sum_Z (map (fun k => occurrences k ks) l) = Z.of_nat (length ks).
Proof.
  intros Hnd. induction ks as [|x ks IH]; intros Hcover.
  - unfold sum_Z. clear. induction l as [|y l IH]; [done|]. simpl. by rewrite IH.
  - rewrite (map_ext _ (fun k => (if decide (x = k) then 1 else 0)
                                 + occurrences k ks))
      by (intros; apply occurrences_cons).
    rewrite sum_Z_plus, sum_Z_indicator by done.
    rewrite decide_True by (apply Hcover, list_elem_of_here).
    rewrite IH by (intros k Hk; apply Hcover; by apply list_elem_of_further).
    simpl length. lia.
Qed.

Lemma first_seen_nil ks : first_seen ks = [] <-> ks = [].
Proof. by destruct ks. Qed.


(** X12. The dictionary [count_by_extension] returns has distinct keys,
    counts of at least one, and counts that add up to the number of
    records; it is empty exactly for no records. *)
Theorem count_by_extension_invariants (items : list FileMeta) :
  NoDup (map fst (count_by_extension items))
  /\ Forall (fun kv => 1 <= snd kv) (count_by_extension items)
  /\ sum_Z (map snd (count_by_extension items)) = len items
  /\ (count_by_extension items = [] <-> items = []).
Proof.
  rewrite count_by_extension_eq. set (ks := map extension_or_dash items).
  pose proof (sorted_perm snd (tally ks) true) as Hperm.
  split_and!.
  - apply (most_common_keys (tally ks)). rewrite tally_keys.
    apply NoDup_first_seen.
  - rewrite Hperm. unfold tally. apply Forall_forall.
    intros [k c] Hin. apply list_elem_of_In, in_map_iff in Hin as (k' & [= <- <-] & Hk).
    apply list_elem_of_In in Hk. rewrite elem_of_first_seen in Hk.
    apply occurrences_pos in Hk. cbn [snd]. lia.
  - rewrite (sum_Z_perm _ _ (Permutation_map snd Hperm)).
    unfold tally. rewrite map_map. cbn [snd].
    rewrite sum_occurrences.
    + unfold len, ks. by rewrite length_map.
    + apply NoDup_first_seen.
    + intros k. apply elem_of_first_seen.
  - split.
    + intros Hnil. apply Permutation_length in Hperm. rewrite Hnil in Hperm.
      unfold tally in Hperm. rewrite length_map in Hperm.
      destruct (first_seen ks) eqn:Hfs; [|done].
      apply first_seen_nil in Hfs. unfold ks in Hfs. by destruct items.
    + intros ->. done.
Qed.

Lemma lstrip_no_dot e : Py.startswith e "." = false -> Py.lstrip "."%char e = e.
Proof.
  destruct e as [|c e]; [done|]. intros Hs.
  destruct (Ascii.eqb_spec c "."%char) as [->|Hne].
  - destruct e; discriminate Hs.
  - cbn [Py.lstrip]. apply Ascii.eqb_neq in Hne. by rewrite Hne.
Qed.

(** X13. For records whose extensions are lowercase, as scanned ones
    are, the count [count_by_extension] gives for an extension is the
    number of records [filter_by_extensions] returns for it, and the
    extension is a key exactly when that number is positive.  (The
    placeholder key ["-"] and the empty request are excluded.) *)
Theorem count_agrees_with_filter (items : list FileMeta) (e : string) :
  Forall (fun m => Py.lower (extension m) = extension m) items ->
  e <> "" -> e <> "-" ->
  Py.lower e = e -> Py.startswith e "." = false ->
  dict_get e (count_by_extension items)
  = (let n := len (filter_by_extensions items [e]) in
     if decide (0 < n) then Some n else None).
Proof.
  intros Hlow Hne Hnd Hel Hdot.
  assert (filter_by_extensions items [e]
          = filter (fun m => extension m = e) items) as ->.
  { unfold filter_by_extensions. apply filter_ext_by_elem. intros m Hm.
    rewrite Forall_forall in Hlow. rewrite (Hlow m Hm). cbn [map].
    rewrite elem_of_list_to_set, list_elem_of_singleton.
    by rewrite Hel, lstrip_no_dot. }
  fold (records_with e items). unfold len. cbv zeta.
  rewrite count_by_extension_get, occurrences_keys.
  rewrite (decide_False (P := e = "-")) by done.
  rewrite (decide_False (P := e = "")) by done.
  pose proof (occurrences_pos e (map extension_or_dash items)) as Hpos.
  rewrite occurrences_keys in Hpos.
  rewrite (decide_False (P := e = "-")) in Hpos by done.
  rewrite (decide_False (P := e = "")) in Hpos by done.
  unfold records_with in *.
  destruct (decide (e ∈ map extension_or_dash items)) as [Hin|Hnin].
  - by rewrite decide_True by (by apply Hpos).
  - rewrite decide_False; [done|]. by rewrite Hpos.
Qed.

Lemma count_agrees_with_filter_witness :
  dict_get "txt" (count_by_extension Sample.recs)
  = (let n := len (filter_by_extensions Sample.recs ["txt"]) in
     if decide (0 < n) then Some n else None).
Proof.
  apply (count_agrees_with_filter Sample.recs "txt");
    [repeat constructor|discriminate|discriminate|reflexivity|reflexivity].
Defined.

End CountExtras.

Section SortExtras.
Import Scanner Utils.
Context {K : Type} `{StrictWeak K}.

(** An ascending list is left as it is by the stable sort. *)
Lemma stable_sort_sorted {A} (key : A -> K) (l : list A) :
  StronglySorted (ascending key) l -> stable_sort key l = l.
Proof.
  induction 1 as [|x l Hl IH Hx]; [done|]. simpl. rewrite IH.
  destruct l as [|y l]; [done|]. simpl.
  apply Forall_cons in Hx as [Hxy _]. unfold ascending in Hxy. by rewrite Hxy.
Qed.

Lemma sorted_idem {A} (key : A -> K) (l : list A) (rv : bool) :
  sorted key (sorted key l rv) rv = sorted key l rv.
Proof.
  unfold sorted. destruct rv.
  - rewrite reverse_involutive.
    by rewrite (stable_sort_sorted key (stable_sort key (reverse l)))
      by apply stable_sort_ascending.
  - apply stable_sort_sorted, stable_sort_ascending.
Qed.

(** What a successful [sort_by] did. *)
Lemma sort_by_run (h h' : gmap nat (list FileMeta)) (items r : nat)
      (key_func : FileMeta -> K) (rv : bool) :
  sort_by h items key_func rv = Some (h', r) ->
  exists v, h !! items = Some v /\ h' !! r = Some (sorted key_func v rv).
Proof.
  unfold sort_by, list_copy, sorted_new.
  destruct (h !! items) as [v|] eqn:Hv; [|done]. cbn [mbind option_bind].
  destruct (alloc h v) as [h1 tmp] eqn:Ha1.
  apply alloc_spec in Ha1 as (_ & Htmp & _ & _).
  cbn [mbind option_bind]. rewrite Htmp. cbn [mbind option_bind].
  destruct (alloc h1 (sorted key_func v rv)) as [h2 r2] eqn:Ha2.
  apply alloc_spec in Ha2 as (_ & Hout & _ & _).
  intros [= <- <-]. by exists v.
Qed.

(** X14. Sorting the list [sort_by] returned, by the same key and in the
    same direction, returns a list with the same content: records of
    equal key are never shuffled by sorting again. *)
Theorem sorting_again_changes_nothing
        (h h1 h2 : gmap nat (list FileMeta)) (items r1 r2 : nat)
        (key_func : FileMeta -> K) (reverse : bool) :
  sort_by h items key_func reverse = Some (h1, r1) ->
  sort_by h1 r1 key_func reverse = Some (h2, r2) ->
  h2 !! r2 = h1 !! r1.
Proof.
  intros (v & _ & Hr1)%sort_by_run (v1 & Hv1 & Hr2)%sort_by_run.
  rewrite Hr1 in Hv1. injection Hv1 as <-.
  by rewrite Hr2, Hr1, sorted_idem.
Qed.

End SortExtras.

Section SortWitness.
Import Scanner Utils.

Lemma sorting_again_changes_nothing_witness :
  Sample.heap2 !! Sample.sorted2 = Sample.heap1 !! Sample.sorted1.
Proof.
  apply (sorting_again_changes_nothing
           Sample.heap0 Sample.heap1 Sample.heap2 0%nat Sample.sorted1
           Sample.sorted2 size_bytes true);
    vm_compute; reflexivity.
Defined.

End SortWitness.

(** ** The brief view *)

Section ViewExtras.
Import Scanner Utils.

(** Rounding to nearest is off by at most half a unit. *)
Lemma round_half_even_close n d :
  0 < d -> Z.abs (2 * (Py.round_half_even n d * d - n)) <= d.
Proof.
  intros Hd. unfold Py.round_half_even.
  pose proof (Z.div_mod n d ltac:(lia)) as Hdm.
  pose proof (Z.mod_pos_bound n d Hd) as Hr.
  set (q := n / d) in *. set (r := n mod d) in *.
  destruct (2 * r <? d) eqn:H1; [apply Z.ltb_lt in H1; nia|].
  apply Z.ltb_ge in H1.
  destruct (d <? 2 * r) eqn:H2; [apply Z.ltb_lt in H2; nia|].
  apply Z.ltb_ge in H2. destruct (Z.even q); nia.
Qed.

(** Halfway between two figures the even one is taken. *)
Lemma round_half_even_tie n d :
  0 < d ->
  Z.abs (2 * (Py.round_half_even n d * d - n)) = d ->
  Z.even (Py.round_half_even n d) = true.
Proof.
  intros Hd. unfold Py.round_half_even.
  pose proof (Z.div_mod n d ltac:(lia)) as Hdm.
  pose proof (Z.mod_pos_bound n d Hd) as Hr.
  set (q := n / d) in *. set (r := n mod d) in *.
  destruct (2 * r <? d) eqn:H1; [apply Z.ltb_lt in H1; nia|].
  apply Z.ltb_ge in H1.
  destruct (d <? 2 * r) eqn:H2; [apply Z.ltb_lt in H2; nia|].
  destruct (Z.even q) eqn:Hq; [done|]. intros _.
  rewrite Z.add_1_r, Z.even_succ, <- Z.negb_even. by rewrite Hq.
Qed.

Lemma round_half_even_mono n m d :
  0 < d -> n <= m -> Py.round_half_even n d <= Py.round_half_even m d.
Proof.
  intros Hd Hnm.
  pose proof (round_half_even_close n d Hd) as Hn.
  pose proof (round_half_even_close m d Hd) as Hm.
  unfold Py.round_half_even in *.
  pose proof (Z.div_mod n d ltac:(lia)) as Hdn.
  pose proof (Z.mod_pos_bound n d Hd) as Hrn.
  pose proof (Z.div_mod m d ltac:(lia)) as Hdm.
  pose proof (Z.mod_pos_bound m d Hd) as Hrm.
  pose proof (Z.div_le_mono n m d Hd Hnm) as Hq.
  set (qn := n / d) in *. set (rn := n mod d) in *.
  set (qm := m / d) in *. set (rm := m mod d) in *.
  destruct (Z.eq_dec qn qm) as [Heq|Hne].
  - rewrite <- Heq in *.
    destruct (2 * rn <? d) eqn:A1, (2 * rm <? d) eqn:B1;
      destruct (d <? 2 * rn) eqn:A2, (d <? 2 * rm) eqn:B2;
      destruct (Z.even qn);
      rewrite ?Z.ltb_lt, ?Z.ltb_ge in *; nia.
  - destruct (2 * rn <? d), (d <? 2 * rn), (Z.even qn),
             (2 * rm <? d), (d <? 2 * rm), (Z.even qm); lia.
Qed.

Lemma zfill_digit d : 0 <= d < 10 -> Py.zfill 1 (Py.str_int d) = Py.str_int d.
Proof.
  intros Hd.
  assert (d = 0 \/ d = 1 \/ d = 2 \/ d = 3 \/ d = 4 \/ d = 5 \/ d = 6
          \/ d = 7 \/ d = 8 \/ d = 9) as Hcases by lia.
  repeat (destruct Hcases as [->|Hcases]; [reflexivity|]). by subst.
Qed.

(** X15. [brief_view] gives one row per record, in order: the row at
    each position carries the name of the record at that position, and
    as its ["ext"] the record's extension, or ["-"] when that is empty.
    The row's ["ext"] is never empty, it is ["-"] exactly for a record
    whose extension is empty or ["-"], and it is always a key of
    [count_by_extension] for the same records, with a count of at least
    one. *)
Theorem brief_view_ext_is_a_counted_key
        (isoformat_seconds : datetime -> string) (items : list FileMeta) :
  length (brief_view isoformat_seconds items) = length items
  /\ map (dict_get "name") (brief_view isoformat_seconds items)
     = map (fun m => Some (name m)) items
  /\ map (dict_get "ext") (brief_view isoformat_seconds items)
     = map (fun m =>
              Some (if String.eqb (extension m) "" then "-" else extension m))
           items
  /\ (forall row,
        row ∈ brief_view isoformat_seconds items ->
        exists m v c,
          m ∈ items
          /\ dict_get "ext" row = Some v
          /\ v <> ""
          /\ (v = "-" <-> extension m = "" \/ extension m = "-")
          /\ dict_get v (count_by_extension items) = Some c
          /\ 1 <= c).
Proof.
  unfold brief_view. split_and!.
  - apply length_map.
  - rewrite map_map. by apply map_ext.
  - rewrite map_map. apply map_ext. intros m.
    unfold extension_or_dash. by destruct (extension m).
  - intros row Hrow. apply list_elem_of_In, in_map_iff in Hrow as (m & <- & Hm).
    apply list_elem_of_In in Hm.
    exists m, (extension_or_dash m),
           (occurrences (extension_or_dash m) (map extension_or_dash items)).
    assert (extension_or_dash m ∈ map extension_or_dash items) as Hkey.
    { apply list_elem_of_In, in_map. by apply list_elem_of_In. }
    split_and!.
    + done.
    + done.
    + unfold extension_or_dash. by destruct (extension m).
    + unfold extension_or_dash. destruct (extension m) eqn:He; simpl.
      * split; [by left|done].
      * split; [by right|]. intros [?|?]; done.
    + rewrite count_by_extension_get. by rewrite decide_True.
    + apply occurrences_pos in Hkey. lia.
Qed.

(** X16. For a size from 0 up to 2^53, [human_size] shows kibibytes with
    one decimal below 1,048,576 bytes and mebibytes with two decimals
    from there on, the figure shown being the nearest one: within 0.05 KB,
    respectively 0.005 MB, of the size, and the one with an even last
    digit when the size lies exactly halfway between two figures.  The
    figure never decreases when the size grows within a unit, and the
    sizes from 1,048,525 to 1,048,575 bytes show as "1024.0 KB". *)
Theorem human_size_is_nearest (b : Z) :
  0 <= b < 2 ^ 53 ->
  (b < 1048576 ->
   exists q,
     human_size b
     = String.append (Py.str_int (q / 10))
         (String.append "." (String.append (Py.str_int (q mod 10)) " KB"))
     /\ 0 <= q <= 10240
     /\ Z.abs (1024 * q - 10 * b) <= 512
     /\ (Z.abs (1024 * q - 10 * b) = 512 -> Z.even q = true)
     /\ (forall b', 0 <= b' <= b ->
           Py.round_half_even (b' * 10) 1024 <= q))
  /\ (1048576 <= b ->
      exists q,
        human_size b
        = String.append (Py.str_int (q / 100))
            (String.append "."
               (String.append (Py.zfill 2 (Py.str_int (q mod 100))) " MB"))
        /\ 100 <= q
        /\ Z.abs (1048576 * q - 100 * b) <= 524288
        /\ (Z.abs (1048576 * q - 100 * b) = 524288 -> Z.even q = true))
  /\ (1048525 <= b < 1048576 -> human_size b = "1024.0 KB").
Proof.
  intros Hb. split_and!.
  - intros Hkb. exists (Py.round_half_even (b * 10) 1024).
    pose proof (round_half_even_close (b * 10) 1024 ltac:(lia)) as Hclose.
    pose proof (round_half_even_tie (b * 10) 1024 ltac:(lia)) as Htie.
    pose proof (round_half_even_mono 0 (b * 10) 1024 ltac:(lia) ltac:(lia)) as Hlo.
    pose proof (round_half_even_mono (b * 10) 10485750 1024 ltac:(lia) ltac:(lia))
      as Hhi.
    change (Py.round_half_even 0 1024) with 0 in Hlo.
    change (Py.round_half_even 10485750 1024) with 10240 in Hhi.
    split_and!; [|lia|lia|lia| |].
    + unfold human_size, Py.format_fixed.
      assert ((b <? 1048576) = true) as -> by lia.
      assert ((b <? 0) = false) as -> by lia.
      rewrite Z.abs_eq by lia. change (10 ^ Z.of_nat 1) with 10.
      cbn [String.append]. rewrite zfill_digit.
      * by rewrite !str_app_assoc.
      * apply Z.mod_pos_bound. lia.
    + intros Hhalf. apply Htie. lia.
    + intros b' Hb'. apply round_half_even_mono; lia.
  - intros Hmb. exists (Py.round_half_even (b * 100) 1048576).
    pose proof (round_half_even_close (b * 100) 1048576 ltac:(lia)) as Hclose.
    pose proof (round_half_even_tie (b * 100) 1048576 ltac:(lia)) as Htie.
    pose proof (round_half_even_mono 104857600 (b * 100) 1048576
                  ltac:(lia) ltac:(lia)) as Hlo.
    change (Py.round_half_even 104857600 1048576) with 100 in Hlo.
    split_and!; [|lia|lia|].
    + unfold human_size, Py.format_fixed.
      assert ((b <? 1048576) = false) as -> by lia.
      assert ((b <? 0) = false) as -> by lia.
      rewrite Z.abs_eq by lia. change (10 ^ Z.of_nat 2) with 100.
      cbn [String.append]. by rewrite !str_app_assoc.
    + intros Hhalf. apply Htie. lia.
  - intros Hedge.
    assert (Py.round_half_even (b * 10) 1024 = 10240) as Hq.
    { pose proof (round_half_even_mono 10485250 (b * 10) 1024
                    ltac:(lia) ltac:(lia)) as Hlo.
      pose proof (round_half_even_mono (b * 10) 10485750 1024
                    ltac:(lia) ltac:(lia)) as Hhi.
      change (Py.round_half_even 10485250 1024) with 10240 in Hlo.
      change (Py.round_half_even 10485750 1024) with 10240 in Hhi. lia. }
    unfold human_size, Py.format_fixed.
    assert ((b <? 1048576) = true) as -> by lia.
    assert ((b <? 0) = false) as -> by lia.
    rewrite Z.abs_eq by lia. change (10 ^ Z.of_nat 1) with 10.
    rewrite Hq. reflexivity.
Qed.

(** 256 bytes are a quarter of a kibibyte, halfway between 0.2 and 0.3;
    768 bytes lie halfway between 0.7 and 0.8. *)
Lemma human_size_is_nearest_witness :
  human_size 1048570 = "1024.0 KB"
  /\ human_size 256 = "0.2 KB"
  /\ human_size 768 = "0.8 KB".
Proof.
  split_and!.
  - apply (proj2 (proj2 (human_size_is_nearest 1048570 ltac:(lia)))). lia.
  - destruct (proj1 (human_size_is_nearest 256 ltac:(lia)) ltac:(lia))
      as (q & -> & _ & Hclose & Htie & _).
    assert (q = 2 \/ q = 3) as [->| ->] by lia; [reflexivity|].
    specialize (Htie eq_refl). discriminate Htie.
  - destruct (proj1 (human_size_is_nearest 768 ltac:(lia)) ltac:(lia))
      as (q & -> & _ & Hclose & Htie & _).
    assert (q = 7 \/ q = 8) as [->| ->] by lia; [|reflexivity].
    specialize (Htie eq_refl). discriminate Htie.
Defined.

End ViewExtras.

(** ** The report of [run] *)

Section RunExtras.
Import Scanner Utils Main.

Lemma sort_by_total {K : Type} `{PyLt K} (h : gmap nat (list FileMeta))
      (items : nat) (v : list FileMeta) (key_func : FileMeta -> K) (rv : bool) :
  h !! items = Some v ->
  exists h' r,
    sort_by h items key_func rv = Some (h', r)
    /\ h' !! r = Some (sorted key_func v rv).
Proof.
  intros Hv. unfold sort_by, list_copy, sorted_new. rewrite Hv.
  cbn [mbind option_bind].
  destruct (alloc h v) as [h1 tmp] eqn:Ha1.
  apply alloc_spec in Ha1 as (_ & Htmp & _ & _).
  cbn [mbind option_bind]. rewrite Htmp. cbn [mbind option_bind].
  destruct (alloc h1 (sorted key_func v rv)) as [h2 r2] eqn:Ha2.
  apply alloc_spec in Ha2 as (_ & Hout & _ & _).
  by exists h2, r2.
Qed.

(** The files [run] shows: a slice of the files sorted by size, largest
    first. *)
Lemma largest_eq (files : list FileMeta) (show : Z) :
  largest files show = slice_to (sorted size_bytes files true) show.
Proof.
  unfold largest.
  destruct (sort_by_total {[ 0%nat := files ]} 0%nat files size_bytes true)
    as (h' & r & -> & Hr); [apply lookup_singleton_eq|].
  by rewrite Hr.
Qed.

Lemma slice_to_prefix {A} (l : list A) (n : Z) :
  exists k, slice_to l n = firstn k l.
Proof. unfold slice_to. destruct (0 <=? n); by eexists. Qed.


Lemma StronglySorted_app_split {A} (R : A -> A -> Prop) (l1 l2 : list A) :
  StronglySorted R (l1 ++ l2) ->
  StronglySorted R l1 /\ forall a b, a ∈ l1 -> b ∈ l2 -> R a b.
Proof.
  induction l1 as [|x l1 IH]; simpl; intros Hs.
  - split; [constructor|]. by intros a b ?%elem_of_nil.
  - apply StronglySorted_inv in Hs as [Hs Hx]. destruct (IH Hs) as [Hl1 Hcross].
    apply Forall_app in Hx as [Hx1 Hx2]. split; [by constructor|].
    intros a b [->|Ha]%elem_of_cons Hb.
    + rewrite Forall_forall in Hx2. by apply Hx2.
    + by apply Hcross.
Qed.




(** X18. The files [run] ranks are the largest ones: they stand in
    order of size, largest first, and no file left out of the ranking is
    larger than a file in it; the ranking together with the files left
    out is a rearrangement of all the files. *)
Theorem largest_are_the_largest (files : list FileMeta) (show : Z) :
  exists rest,
    (largest files show ++ rest)%list ≡ₚ files
    /\ StronglySorted (fun a b => size_bytes a >= size_bytes b)
                      (largest files show)
    /\ (forall a b,
          a ∈ largest files show -> b ∈ rest -> size_bytes b <= size_bytes a).
Proof.
  rewrite largest_eq.
  destruct (slice_to_prefix (sorted size_bytes files true) show) as [k ->].
  exists (skipn k (sorted size_bytes files true)).
  pose proof (sorted_ordered size_bytes files true) as Hs. cbv iota in Hs.
  rewrite <- (firstn_skipn k (sorted size_bytes files true)) in Hs.
  apply StronglySorted_app_split in Hs as [Hfirst Hcross].
  split_and!.
  - rewrite firstn_skipn. apply sorted_perm.
  - eapply StronglySorted_weaken; [|done].
    intros a b. unfold descending, py_lt, Z_PyLt. rewrite Z.ltb_ge. lia.
  - intros a b Ha Hb. specialize (Hcross a b Ha Hb).
    unfold descending, py_lt, Z_PyLt in Hcross. by apply Z.ltb_ge in Hcross.
Qed.

End RunExtras.

(** ** Hidden status and repetitions *)

Section HiddenExtras.
Import Scanner.

Lemma distinct_names_dir entries fail :
  distinct_names (Directory entries fail)
  <-> NoDup (map fst entries) /\ Forall (fun e => distinct_names (snd e)) entries.
Proof.
  cbn [distinct_names]. apply and_iff_compat_l.
  induction entries as [|[ename child] es IH]; [by split; [constructor|]|].
  rewrite Forall_cons, IH. done.
Qed.

Lemma entry_paths_below self directory ename child q :
  q ∈ yielded (entry_paths self directory (ename, child)) ->
  exists rest, q = (directory ++ ename :: rest)%list.
Proof.
  rewrite entry_paths_yielded.
  destruct (negb (include_hidden self) && _is_hidden ename directory);
    [by intros ?%elem_of_nil|].
  destruct (FS.is_dir child (follow_symlinks self)) as [[|]|e];
    [| |by intros ?%elem_of_nil].
  - destruct (negb (follow_symlinks self) && FS.islink child);
      [by intros ?%elem_of_nil|].
    intros (rest & -> & _)%iter_paths_leads. exists rest.
    unfold PurePath.joinpath. by rewrite <- app_assoc.
  - destruct (FS.is_file child (follow_symlinks self)) as [[|]|e];
      try (by intros ?%elem_of_nil).
    intros ->%list_elem_of_singleton. by exists [].
Qed.

Lemma entry_paths_NoDup self directory ename child :
  (forall d, NoDup (yielded (_iter_paths self child d))) ->
  NoDup (yielded (entry_paths self directory (ename, child))).
Proof.
  intros Hchild. rewrite entry_paths_yielded.
  destruct (negb (include_hidden self) && _is_hidden ename directory);
    [constructor|].
  destruct (FS.is_dir child (follow_symlinks self)) as [[|]|e];
    [| |constructor].
  - destruct (negb (follow_symlinks self) && FS.islink child);
      [constructor|apply Hchild].
  - destruct (FS.is_file child (follow_symlinks self)) as [[|]|e];
      try constructor; [by intros ?%elem_of_nil|constructor].
Qed.

Lemma iter_paths_NoDup self n :
  distinct_names n ->
  forall directory, NoDup (yielded (_iter_paths self n directory)).
Proof.
  induction n as [f|entries fail IH|t IH| | |e] using node_tree_ind;
    intros Hn directory; try constructor.
  - apply distinct_names_dir in Hn as [Hnames Hsub].
    rewrite iter_paths_dir_yielded.
    induction entries as [|[ename child] es IHes]; [constructor|].
    cbn [flat_map map fst] in *.
    apply Forall_cons in IH as [IHc IH]. apply Forall_cons in Hsub as [Hc Hsub].
    apply NoDup_cons in Hnames as [Hfresh Hnames].
    apply NoDup_app. split_and!.
    + apply entry_paths_NoDup. by apply IHc.
    + intros q (rest & ->)%entry_paths_below Hq.
      apply list_elem_of_In, in_flat_map in Hq as ([ename' child'] & He & Hq).
      apply list_elem_of_In, entry_paths_below in Hq as (rest' & Heq).
      apply app_inv_head in Heq. injection Heq as -> _.
      apply Hfresh. apply list_elem_of_In, in_map_iff. by exists (ename', child').
    + by apply IHes.
  - cbn [_iter_paths]. by apply IH.
Qed.

(** X19. Hidden status is inherited: once an entry is hidden, so is
    every entry at any depth beneath it, whatever its own name. *)
Theorem hidden_is_inherited (ename : string) (directory : Path) :
  _is_hidden ename directory = true ->
  forall (rest : list string) (below : string),
    _is_hidden below (directory ++ ename :: rest)%list = true.
Proof.
  rewrite is_hidden_spec. intros Hhid rest below.
  rewrite is_hidden_spec, existsb_app. cbn [existsb].
  apply orb_true_iff in Hhid as [-> | ->];
    by rewrite ?orb_true_r.
Qed.

Lemma hidden_is_inherited_witness :
  _is_hidden "config.json" (["home"] ++ ".config" :: ["app"; "v2"])%list = true.
Proof.
  apply (hidden_is_inherited ".config" ["home"]). reflexivity.
Defined.

(** X20. When every directory listing names each entry once, a walk
    yields no path twice. *)
Theorem no_path_is_yielded_twice self n directory :
  distinct_names n -> NoDup (yielded (_iter_paths self n directory)).
Proof. intros Hn. by apply iter_paths_NoDup. Qed.

Lemma no_path_is_yielded_twice_witness :
  NoDup (yielded (_iter_paths Sample.lax_scanner Sample.linked_fs [])).
Proof.
  apply (no_path_is_yielded_twice Sample.lax_scanner Sample.linked_fs []).
  vm_compute. repeat split; repeat constructor;
    rewrite ?elem_of_cons, ?elem_of_nil; intuition discriminate.
Defined.

End HiddenExtras.
